(** * mk_syscalls_linux: the syscall table generator

    A shallow embedding of [arch/mk_syscalls_linux.go] and the properties of
    its parsers, its builders and its [main].

    Go strings are byte strings: they are [string]s here, one [ascii] per
    byte.  Go's [int] is taken to be 64 bits wide (every platform the
    generator is run on).  The network, the file system and the temporary
    directory are explicit: a record [Env] says what each call to the outside
    returns, and a record [FS] is the state of the disk that the program
    threads through. *)

From Stdlib Require Import ZArith NArith Ascii String List Bool Lia DecimalString
  DecimalPos.
From stdpp Require Import base option list sorting strings gmap.

Local Open Scope Z_scope.

(** ** Bytes and character classes *)

Definition byte (c : ascii) : N := N_of_ascii c.

(** [\d] of Go's regexp syntax, and the digits [strconv] accepts in base 10. *)
Definition is_digit (c : ascii) : bool :=
  ((48 <=? byte c) && (byte c <=? 57))%N.

Definition is_lower (c : ascii) : bool :=
  ((97 <=? byte c) && (byte c <=? 122))%N.

(** The class [[a-z0-9_]] of both header patterns. *)
Definition is_name_char (c : ascii) : bool :=
  is_lower c || is_digit c || (byte c =? 95)%N.

(** [\s] of Go's regexp syntax: tab, newline, form feed, carriage return and
    space (no vertical tab). *)
Definition is_regex_space (c : ascii) : bool :=
  ((byte c =? 9) || (byte c =? 10) || (byte c =? 12) || (byte c =? 13)
   || (byte c =? 32))%N.

(** [unicode.IsSpace] read on the UTF-8 bytes at the head of [s]: the number
    of bytes of the white space rune that starts there, 0 when none does.
    The runes are U+0009..U+000D, U+0020, U+0085, U+00A0, U+1680,
    U+2000..U+200A, U+2028, U+2029, U+202F, U+205F and U+3000.  No encoding
    of these starts with a continuation byte, so looking for them byte by
    byte finds the same runes as Go's decoding from the start of the string. *)
Definition space_width (s : string) : nat :=
  match s with
  | EmptyString => 0%nat
  | String c0 r0 =>
    let b0 := byte c0 in
    if ((9 <=? b0) && (b0 <=? 13) || (b0 =? 32))%N then 1%nat
    else
      match r0 with
      | EmptyString => 0%nat
      | String c1 r1 =>
        let b1 := byte c1 in
        if ((b0 =? 194) && ((b1 =? 133) || (b1 =? 160)))%N then 2%nat
        else
          match r1 with
          | EmptyString => 0%nat
          | String c2 _ =>
            let b2 := byte c2 in
            if ((b0 =? 225) && (b1 =? 154) && (b2 =? 128))%N then 3%nat
            else if ((b0 =? 226) && (b1 =? 128)
                     && ((128 <=? b2) && (b2 <=? 138) || (b2 =? 168)
                         || (b2 =? 169) || (b2 =? 175)))%N then 3%nat
            else if ((b0 =? 226) && (b1 =? 129) && (b2 =? 159))%N then 3%nat
            else if ((b0 =? 227) && (b1 =? 128) && (b2 =? 128))%N then 3%nat
            else 0%nat
          end
      end
  end.

(** ** The functions of package [strings] that the parsers call *)

Definition is_empty (s : string) : bool :=
  match s with EmptyString => true | String _ _ => false end.

(** [len(line) == 0] *)
Definition len_is_zero (s : string) : bool := is_empty s.

(** [strings.HasPrefix(s, prefix)] *)
Definition HasPrefix (s p : string) : bool := String.prefix p s.

(** Drops leading white space; [skip] counts the bytes still to drop of a
    white space rune of several bytes. *)
Fixpoint trimLeft (skip : nat) (s : string) : string :=
  match s with
  | EmptyString => EmptyString
  | String _ r =>
    match skip with
    | S k => trimLeft k r
    | O =>
      match space_width s with
      | O => s
      | S k => trimLeft k r
      end
    end
  end.

(** Drops the longest suffix made of white space runes. *)
Fixpoint trimRight (s : string) : string :=
  match s with
  | EmptyString => EmptyString
  | String c r => if is_empty (trimLeft 0 s) then EmptyString
                  else String c (trimRight r)
  end.

(** [strings.TrimSpace] *)
Definition TrimSpace (s : string) : string := trimRight (trimLeft 0 s).

Fixpoint rev_string (acc s : string) : string :=
  match s with
  | EmptyString => acc
  | String c r => rev_string (String c acc) r
  end.

(** The field under construction ([cur], its bytes in reverse) is emitted
    when white space or the end of the string closes it. *)
Definition flush (cur : string) (fs : list string) : list string :=
  if is_empty cur then fs else rev_string EmptyString cur :: fs.

Fixpoint fields_from (skip : nat) (cur : string) (s : string) : list string :=
  match s with
  | EmptyString => flush cur []
  | String c r =>
    match skip with
    | S k => fields_from k cur r
    | O =>
      match space_width s with
      | O => fields_from 0 (String c cur) r
      | S k => flush cur (fields_from k EmptyString r)
      end
    end
  end.

(** [strings.Fields]: the maximal runs of bytes that are not white space. *)
Definition Fields (s : string) : list string := fields_from 0 EmptyString s.

(** ** [strconv.Atoi] *)

Definition maxInt : Z := 2 ^ 63 - 1.
Definition minInt : Z := - 2 ^ 63.

Fixpoint digits_val (acc : Z) (s : string) : option Z :=
  match s with
  | EmptyString => Some acc
  | String c r =>
    if is_digit c then digits_val (10 * acc + (Z.of_N (byte c) - 48)) r
    else None
  end.

(** An optional sign, then one decimal digit or more, the value within the
    range of [int]; [None] stands for the [*NumError] (syntax or range). *)
Definition Atoi (s : string) : option Z :=
  let '(neg, body) :=
    match s with
    | String "+" r => (false, r)
    | String "-" r => (true, r)
    | _ => (false, s)
    end in
  if is_empty body then None
  else
    match digits_val 0 body with
    | None => None
    | Some v =>
      let n := if neg then - v else v in
      if (minInt <=? n) && (n <=? maxInt) then Some n else None
    end.

(** [int] addition wraps around at 64 bits. *)
Definition wrap_int (z : Z) : Z := (z + 2 ^ 63) mod 2 ^ 64 - 2 ^ 63.

(** ** The data model *)

Record Syscall : Type := mkSyscall { Num : Z; Name : string }.

Record Arch : Type := mkArch { ArchName : string; Syscalls : list Syscall }.

Record TemplateParams : Type :=
  mkParams { LinuxVersion : string; Arches : list Arch }.

(** The errors the program makes or passes on, one constructor per message
    or origin. *)
Inductive error : Type :=
| ErrUnexpectedLine (line : string)   (* unexpected line format: %v *)
| ErrParseNumber (line : string)      (* failed to parse syscall number *)
| ErrHttpGet                          (* http get failed: %v *)
| ErrHttpStatus (code : Z)            (* download failed with http status %v *)
| ErrCreateFile                       (* failed to create output file: %v *)
| ErrWriteFile                        (* failed to write file to disk: %v *)
| ErrOpen                             (* from os.Open *)
| ErrTooLong                          (* bufio.ErrTooLong, from the Scanner *)
| ErrTempDir                          (* from ioutil.TempDir *)
| ErrCreateOutput                     (* from os.Create(outputFile) *)
| ErrExecute.                         (* from tmpl.Execute: a failed write *)

Inductive result (A : Type) : Type :=
| Ok (a : A)
| Err (e : error).
Arguments Ok {A} a.
Arguments Err {A} e.

(** ** The table-format line parsers *)

(** What a parser closure returns: [Ok None] is [(nil, nil)], [Ok (Some s)]
    is [(&s, nil)], [Err e] is [(nil, e)]. *)
Definition parseFunc : Type := string → result (option Syscall).

(** The closure of [buildARM] for [syscall.tbl]. *)
Definition parseARMTable : parseFunc := fun line =>
  if len_is_zero line || HasPrefix line "#" then Ok None
  else
    let fields := Fields line in
    match fields with
    | f0 :: f1 :: f2 :: _ =>
      if String.eqb f1 "oabi" then Ok None
      else
        match Atoi f0 with
        | None => Err (ErrParseNumber line)
        | Some num => Ok (Some {| Num := num; Name := f2 |})
        end
    | _ => Err (ErrUnexpectedLine line)
    end.

(** The closure of [build386]. *)
Definition parse386 : parseFunc := fun line =>
  if len_is_zero line || HasPrefix line "#" then Ok None
  else
    let fields := Fields line in
    match fields with
    | f0 :: _ :: f2 :: _ =>
      match Atoi f0 with
      | None => Err (ErrParseNumber line)
      | Some num => Ok (Some {| Num := num; Name := f2 |})
      end
    | _ => Err (ErrUnexpectedLine line)
    end.

(** The closure of [buildX32]. *)
Definition parseX32 : parseFunc := fun line =>
  if len_is_zero line || HasPrefix line "#" then Ok None
  else
    let fields := Fields line in
    match fields with
    | f0 :: f1 :: f2 :: _ =>
      if String.eqb f1 "x64" then Ok None
      else
        match Atoi f0 with
        | None => Err (ErrParseNumber line)
        | Some num => Ok (Some {| Num := num; Name := f2 |})
        end
    | _ => Err (ErrUnexpectedLine line)
    end.

(** The closure of [buildX86_64]. *)
Definition parseX86_64 : parseFunc := fun line =>
  if len_is_zero line || HasPrefix line "#" then Ok None
  else
    let fields := Fields line in
    match fields with
    | f0 :: f1 :: f2 :: _ =>
      if String.eqb f1 "x32" then Ok None
      else
        match Atoi f0 with
        | None => Err (ErrParseNumber line)
        | Some num => Ok (Some {| Num := num; Name := f2 |})
        end
    | _ => Err (ErrUnexpectedLine line)
    end.

(** ** The header-format line parsers *)

(** The pieces of the two patterns.  Each consumes a prefix of its input and
    returns what it matched with the rest. *)

(** A literal. *)
Fixpoint lit (p s : string) : option string :=
  match p, s with
  | EmptyString, _ => Some s
  | String a p', String b s' => if Ascii.eqb a b then lit p' s' else None
  | String _ _, EmptyString => None
  end.

(** The longest prefix made of bytes of a class. *)
Fixpoint span (f : ascii → bool) (s : string) : string * string :=
  match s with
  | EmptyString => (EmptyString, EmptyString)
  | String c r =>
    if f c then let '(a, b) := span f r in (String c a, b)
    else (EmptyString, s)
  end.

(** [[class]+], greedy.  In both patterns what follows such a run starts
    with a byte outside the class (or nothing follows), so a shorter run can
    never help a match that the longest run fails: the greedy run is the only
    candidate that Go's leftmost-first search has to try. *)
Definition many1 (f : ascii → bool) (s : string) : option (string * string) :=
  let '(a, b) := span f s in
  if is_empty a then None else Some (a, b).

(** [FindStringSubmatch] of
    [^#define __ARM_NR_(?P<syscall>[a-z0-9_]+)\s+\(__ARM_NR_BASE\+(?P<number>\d+)\)]:
    the whole match and the two groups, or the empty slice. *)
Definition armUnistdSycallRegex (line : string) : list string :=
  match lit "#define __ARM_NR_" line with
  | None => []
  | Some r1 =>
    match many1 is_name_char r1 with
    | None => []
    | Some (syscall, r2) =>
      match many1 is_regex_space r2 with
      | None => []
      | Some (sp, r3) =>
        match lit "(__ARM_NR_BASE+" r3 with
        | None => []
        | Some r4 =>
          match many1 is_digit r4 with
          | None => []
          | Some (number, r5) =>
            match lit ")" r5 with
            | None => []
            | Some _ =>
              [ "#define __ARM_NR_" +:+ syscall +:+ sp +:+ "(__ARM_NR_BASE+"
                  +:+ number +:+ ")";
                syscall; number ]
            end
          end
        end
      end
    end
  end.

(** What follows [__NR] and the optional [3264] in the pattern of
    [buildAARCH64]: [_(?P<syscall>[a-z0-9_]+)\s+(?P<number>\d+)]. *)
Definition nr_tail (pre : string) (r : string) : list string :=
  match lit "_" r with
  | None => []
  | Some r1 =>
    match many1 is_name_char r1 with
    | None => []
    | Some (syscall, r2) =>
      match many1 is_regex_space r2 with
      | None => []
      | Some (sp, r3) =>
        match many1 is_digit r3 with
        | None => []
        | Some (number, _) =>
          [ pre +:+ "_" +:+ syscall +:+ sp +:+ number; syscall; number ]
        end
      end
    end
  end.

(** [FindStringSubmatch] of
    [^#define __NR(?:3264)?_(?P<syscall>[a-z0-9_]+)\s+(?P<number>\d+)]:
    the optional group is tried first, and left out if the rest then fails. *)
Definition nrUnistdSycallRegex (line : string) : list string :=
  match lit "#define __NR" line with
  | None => []
  | Some r0 =>
    match lit "3264" r0 with
    | Some r1 =>
      match nr_tail "#define __NR3264" r1 with
      | [] => nr_tail "#define __NR" r0
      | m => m
      end
    | None => nr_tail "#define __NR" r0
    end
  end.

Definition armNrBase : Z := 0x0f0000.

(** The closure of [buildARM] for [unistd.h] (the private syscalls). *)
Definition parseARMHeader : parseFunc := fun line =>
  match armUnistdSycallRegex line with
  | [_; m1; m2] =>
    match Atoi m2 with
    | None => Err (ErrParseNumber line)
    | Some num =>
      let num := wrap_int (num + armNrBase) in
      Ok (Some {| Num := num; Name := m1 |})
    end
  | _ => Ok None
  end.

Definition sentinel : string := "syscalls".

(** The map [omit] of [buildAARCH64]: its only key is [sync_file_range2]. *)
Definition omit (name : string) : bool := String.eqb name "sync_file_range2".

(** The closure of [buildAARCH64]. *)
Definition parseAARCH64 : parseFunc := fun line =>
  match nrUnistdSycallRegex line with
  | [_; m1; m2] =>
    if String.eqb m1 sentinel || omit m1 then Ok None
    else
      match Atoi m2 with
      | None => Err (ErrParseNumber line)
      | Some num => Ok (Some {| Num := num; Name := m1 |})
      end
  | _ => Ok None
  end.

(** ** [bufio.Scanner] with the default split function [ScanLines] *)

Definition newline : ascii := ascii_of_nat 10.
Definition carriage_return : ascii := ascii_of_nat 13.

(** The text cut at every newline; the text after the last newline is a line
    of its own unless it is empty.  [cur] is the line read so far, reversed. *)
Fixpoint raw_lines (cur : string) (s : string) : list string :=
  match s with
  | EmptyString => flush cur []
  | String c r =>
    if Ascii.eqb c newline then rev_string EmptyString cur :: raw_lines EmptyString r
    else raw_lines (String c cur) r
  end.

(** [dropCR]: one trailing carriage return is not part of the line. *)
Fixpoint dropCR (s : string) : string :=
  match s with
  | EmptyString => EmptyString
  | String c EmptyString =>
    if Ascii.eqb c carriage_return then EmptyString else s
  | String c r => String c (dropCR r)
  end.

Definition MaxScanTokenSize : N := 65536.

(** The lines [Scan] delivers, and the error [Err()] reports afterwards: a
    line that does not fit the buffer stops the scan with [ErrTooLong]. *)
Fixpoint scan_tokens (raw : list string) : list string * option error :=
  match raw with
  | [] => ([], None)
  | l :: rest =>
    if (MaxScanTokenSize <=? N.of_nat (String.length l))%N
    then ([], Some ErrTooLong)
    else let '(ls, e) := scan_tokens rest in (dropCR l :: ls, e)
  end.

Definition Scanner (content : string) : list string * option error :=
  scan_tokens (raw_lines EmptyString content).

(** The loop of [readSyscalls] over the scanned lines: [Err] is the early
    [return nil, err]. *)
Fixpoint scan_loop (parse : parseFunc) (lines : list string)
    (syscalls : list Syscall) : result (list Syscall) :=
  match lines with
  | [] => Ok syscalls
  | l :: rest =>
    let line := TrimSpace l in
    match parse line with
    | Err e => Err e
    | Ok None => scan_loop parse rest syscalls
    | Ok (Some syscall) => scan_loop parse rest (syscalls ++ [syscall])
    end
  end.

(** ** [sort.Slice] *)

(** The comparison every builder passes to [sort.Slice]. *)
Definition numLess (a b : Syscall) : bool := Num a <? Num b.

(** What package [sort] asks of [less]: a strict weak ordering. *)
Definition strict_weak_ordering (less : Syscall → Syscall → bool) : Prop :=
  (∀ a, less a a = false)
  ∧ (∀ a b c, less a b = true → less b c = true → less a c = true)
  ∧ (∀ a b c, less a b = false → less b c = false → less a c = false).

(** [sort.Slice] is used through what its documentation promises: the slice
    is rearranged, and afterwards no element is less than an earlier one.  The
    documentation says that the sort is not guaranteed to be stable. *)
Class SortSlice : Type := {
  sort_Slice : (Syscall → Syscall → bool) → list Syscall → list Syscall;
  sort_Slice_perm : ∀ less l, sort_Slice less l ≡ₚ l;
  sort_Slice_sorted : ∀ less l,
    strict_weak_ordering less →
    StronglySorted (λ x y, less y x = false) (sort_Slice less l)
}.

(** Two sorts by insertion that differ on equal elements only: the first
    puts a new element before the elements it is not greater than, the second
    after the elements it is not less than. *)
Fixpoint insert_before (less : Syscall → Syscall → bool) (x : Syscall)
    (l : list Syscall) : list Syscall :=
  match l with
  | [] => [x]
  | y :: r => if less y x then y :: insert_before less x r else x :: l
  end.

Fixpoint insert_after (less : Syscall → Syscall → bool) (x : Syscall)
    (l : list Syscall) : list Syscall :=
  match l with
  | [] => [x]
  | y :: r => if less x y then x :: l else y :: insert_after less x r
  end.

(** Keeps the input order of equal elements. *)
Definition stable_sort (less : Syscall → Syscall → bool) (l : list Syscall)
    : list Syscall :=
  foldr (insert_before less) [] l.

(** Reverses the input order of equal elements. *)
Definition reversing_sort (less : Syscall → Syscall → bool) (l : list Syscall)
    : list Syscall :=
  foldr (insert_after less) [] l.

(** ** Package [path/filepath], on a system whose separator is [/] *)

Definition slash : ascii := ascii_of_nat 47.

(** The elements between the separators, the empty ones included. *)
Fixpoint path_elems (cur : string) (s : string) : list string :=
  match s with
  | EmptyString => [rev_string EmptyString cur]
  | String c r =>
    if Ascii.eqb c slash then rev_string EmptyString cur :: path_elems EmptyString r
    else path_elems (String c cur) r
  end.

(** One element of [Clean]'s scan; [stack] holds the elements kept so far,
    the last one first. *)
Definition clean_step (rooted : bool) (stack : list string) (e : string)
    : list string :=
  if is_empty e || String.eqb e "." then stack
  else if String.eqb e ".." then
    match stack with
    | top :: rest => if String.eqb top ".." then e :: stack else rest
    | [] => if rooted then [] else [e]
    end
  else e :: stack.

(** [filepath.Clean] *)
Definition Clean (path : string) : string :=
  if is_empty path then "."
  else
    let rooted := HasPrefix path "/" in
    let stack := fold_left (clean_step rooted) (path_elems EmptyString path) [] in
    let body := String.concat "/" (rev stack) in
    if rooted then "/" +:+ body
    else if is_empty body then "." else body.

(** [filepath.Join] of two elements. *)
Definition Join (a b : string) : string :=
  if negb (is_empty a) then Clean (a +:+ "/" +:+ b)
  else if negb (is_empty b) then Clean b
  else EmptyString.

(** [filepath.Base] *)
Definition Base (path : string) : string :=
  if is_empty path then "."
  else
    match filter (λ e, is_empty e = false) (rev (path_elems EmptyString path)) with
    | e :: _ => e
    | [] => "/"
    end.

(** ** The world outside the program *)

Record Response : Type := mkResponse { StatusCode : Z; Body : string }.

(** What the flags hold after [flag.Parse], and what each call to the
    outside returns during one run.  Within a run a URL is answered the same
    way each time it is requested, and a path behaves the same way each time
    it is created or written. *)
Record Env : Type := mkEnv {
  linuxVersion : string;                (* -version *)
  outputFile : string;                  (* -out *)
  http_Get : string → option Response;  (* [None]: the request itself fails *)
  TempDir : option string;              (* the directory ioutil.TempDir makes *)
  create_ok : string → bool;            (* can os.Create make this file *)
  write_fail : string → option nat      (* [Some n]: writing to this file
                                           fails after [n] bytes *)
}.

(** The disk: the directories and the files with their contents, by cleaned
    path. *)
Record FS : Type := mkFS { dirs : gset string; files : gmap string string }.

Definition Mkdir (path : string) (fs : FS) : FS :=
  {| dirs := {[ Clean path ]} ∪ dirs fs; files := files fs |}.

(** The file holds exactly [content] afterwards ([os.Create] truncates). *)
Definition put_file (name content : string) (fs : FS) : FS :=
  {| dirs := dirs fs; files := <[ Clean name := content ]> (files fs) |}.

Definition os_Open (name : string) (fs : FS) : option string :=
  files fs !! Clean name.

(** Is [p] the directory [d] or something below it. *)
Definition under (d p : string) : bool :=
  String.eqb p d || String.prefix (if String.eqb d "/" then d else d +:+ "/") p.

(** [os.RemoveAll] *)
Definition RemoveAll (path : string) (fs : FS) : FS :=
  {| dirs := filter (λ d, under (Clean path) d = false) (dirs fs);
     files := filter (λ kv, under (Clean path) kv.1 = false) (files fs) |}.

Definition take_bytes (n : nat) (s : string) : string := String.substring 0 n s.

(** ** [downloadFile] and [readSyscalls] *)

Definition baseURL : string := "https://raw.githubusercontent.com/torvalds/linux/".

Definition StatusOK : Z := 200.

Definition downloadFile (env : Env) (url destinationDir : string) (fs : FS)
    : result string * FS :=
  match http_Get env url with
  | None => (Err ErrHttpGet, fs)
  | Some resp =>
    if negb (StatusCode resp =? StatusOK)
    then (Err (ErrHttpStatus (StatusCode resp)), fs)
    else
      let name := Join destinationDir (Base url) in
      if negb (create_ok env name) then (Err ErrCreateFile, fs)
      else
        match write_fail env name with
        | Some n => (Err ErrWriteFile, put_file name (take_bytes n (Body resp)) fs)
        | None => (Ok name, put_file name (Body resp) fs)
        end
  end.

(** The scan of [readSyscalls] over the text of the file: the slice and the
    error it returns. *)
Definition scanSyscalls (parse : parseFunc) (content : string)
    : list Syscall * option error :=
  let '(lines, scanErr) := Scanner content in
  match scan_loop parse lines [] with
  | Err e => ([], Some e)
  | Ok syscalls => (syscalls, scanErr)
  end.

Definition readSyscalls (env : Env) (path dir : string) (parse : parseFunc)
    (fs : FS) : (list Syscall * option error) * FS :=
  let url := baseURL +:+ linuxVersion env +:+ path in
  match downloadFile env url dir fs with
  | (Err e, fs1) => (([], Some e), fs1)
  | (Ok src, fs1) =>
    match os_Open src fs1 with
    | None => (([], Some ErrOpen), fs1)
    | Some content => (scanSyscalls parse content, fs1)
    end
  end.

(** ** The builders *)

Definition builderFunc : Type := Env → string → FS → result Arch * FS.

Section Builders.
Context `{SortSlice}.

Definition buildARM : builderFunc := fun env dir fs =>
  let tablePath := "/arch/arm/tools/syscall.tbl" in
  let headerPath := "/arch/arm/include/uapi/asm/unistd.h" in
  match readSyscalls env tablePath dir parseARMTable fs with
  | ((_, Some err), fs1) => (Err err, fs1)
  | ((syscallsA, None), fs1) =>
    match readSyscalls env headerPath dir parseARMHeader fs1 with
    | ((_, Some err), fs2) => (Err err, fs2)
    | ((syscallsB, None), fs2) =>
      let syscalls := syscallsA ++ syscallsB in
      (Ok {| ArchName := "ARM"; Syscalls := sort_Slice numLess syscalls |}, fs2)
    end
  end.

Definition buildAARCH64 : builderFunc := fun env dir fs =>
  let headerPath := "/include/uapi/asm-generic/unistd.h" in
  match readSyscalls env headerPath dir parseAARCH64 fs with
  | ((_, Some err), fs1) => (Err err, fs1)
  | ((syscalls, None), fs1) =>
    (Ok {| ArchName := "AARCH64"; Syscalls := sort_Slice numLess syscalls |}, fs1)
  end.

Definition build386 : builderFunc := fun env dir fs =>
  let path := "/arch/x86/entry/syscalls/syscall_32.tbl" in
  match readSyscalls env path dir parse386 fs with
  | ((_, Some err), fs1) => (Err err, fs1)
  | ((syscalls, None), fs1) =>
    (Ok {| ArchName := "386"; Syscalls := sort_Slice numLess syscalls |}, fs1)
  end.

Definition buildX32 : builderFunc := fun env dir fs =>
  let path := "/arch/x86/entry/syscalls/syscall_64.tbl" in
  match readSyscalls env path dir parseX32 fs with
  | ((_, Some err), fs1) => (Err err, fs1)
  | ((syscalls, None), fs1) =>
    (Ok {| ArchName := "X32"; Syscalls := sort_Slice numLess syscalls |}, fs1)
  end.

Definition buildX86_64 : builderFunc := fun env dir fs =>
  let path := "/arch/x86/entry/syscalls/syscall_64.tbl" in
  match readSyscalls env path dir parseX86_64 fs with
  | ((_, Some err), fs1) => (Err err, fs1)
  | ((syscalls, None), fs1) =>
    (Ok {| ArchName := "X86_64"; Syscalls := sort_Slice numLess syscalls |}, fs1)
  end.

(** The list of all builders of [main]. *)
Definition builders : list builderFunc :=
  [buildARM; buildAARCH64; build386; buildX32; buildX86_64].
End Builders.

(** ** The template *)

Definition nl : string := String newline EmptyString.
Definition tab : string := String (ascii_of_nat 9) EmptyString.
Definition dquote : string := String (ascii_of_nat 34) EmptyString.

(** How the template prints an [int]. *)
Definition itoa (z : Z) : string :=
  DecimalString.NilZero.string_of_int (Z.to_int z).

(** The text of [fileTemplate] before the first action. *)
Definition templateHead : string :=
  String.concat nl [
    "// Licensed to Elasticsearch B.V. under one or more contributor";
    "// license agreements. See the NOTICE file distributed with";
    "// this work for additional information regarding copyright";
    "// ownership. Elasticsearch B.V. licenses this file to you under";
    "// the Apache License, Version 2.0 (the " +:+ dquote +:+ "License"
      +:+ dquote +:+ "); you may";
    "// not use this file except in compliance with the License.";
    "// You may obtain a copy of the License at";
    "//";
    "//     http://www.apache.org/licenses/LICENSE-2.0";
    "//";
    "// Unless required by applicable law or agreed to in writing,";
    "// software distributed under the License is distributed on an";
    "// " +:+ dquote +:+ "AS IS" +:+ dquote
      +:+ " BASIS, WITHOUT WARRANTIES OR CONDITIONS OF ANY";
    "// KIND, either express or implied.  See the License for the";
    "// specific language governing permissions and limitations";
    "// under the License.";
    "";
    "// Code generated by mk_syscalls_linux.go - DO NOT EDIT.";
    "";
    "package arch";
    "";
    "// Based on Linux " ].

(** The body of the inner [range]; the newline before [{{- end }}] is
    trimmed. *)
Definition renderSyscall (s : Syscall) : string :=
  nl +:+ tab +:+ itoa (Num s) +:+ ": " +:+ dquote +:+ Name s +:+ dquote +:+ ",".

(** The body of the outer [range]; the newline before [{{- range] is
    trimmed. *)
Definition renderArch (a : Arch) : string :=
  nl +:+ "var syscalls" +:+ ArchName a +:+ " = map[int]string{"
     +:+ String.concat "" (map renderSyscall (Syscalls a))
     +:+ nl +:+ "}" +:+ nl.

(** What [tmpl.Execute] writes for [params]. *)
Definition Execute (params : TemplateParams) : string :=
  templateHead +:+ LinuxVersion params +:+ "." +:+ nl
    +:+ String.concat "" (map renderArch (Arches params))
    +:+ nl.

(** ** [main] *)

(** How the process ends: its exit status, the error [log.Fatal] printed,
    what it wrote to the output file, and the disk it leaves behind. *)
Record Outcome : Type := mkOutcome {
  exit_status : Z;
  logged : option error;
  output : option string;   (* the bytes written through [out]; [None] when
                               the output file was never created *)
  disk : FS
}.

(** [log.Fatal(err)]: the error is printed and [os.Exit(1)] ends the process
    at once; the deferred calls are not run. *)
Definition log_Fatal (err : error) (written : option string) (fs : FS)
    : Outcome :=
  {| exit_status := 1; logged := Some err; output := written; disk := fs |}.

Inductive error_kind : Type := NetworkError | ParseError | IOError.

Definition kind_of (e : error) : error_kind :=
  match e with
  | ErrHttpGet | ErrHttpStatus _ => NetworkError
  | ErrUnexpectedLine _ | ErrParseNumber _ | ErrTooLong => ParseError
  | ErrCreateFile | ErrWriteFile | ErrOpen | ErrTempDir | ErrCreateOutput
  | ErrExecute => IOError
  end.

(** The loop of [main] over the builders; [arches] is [params.Arches]. *)
Fixpoint run_builders (env : Env) (bs : list builderFunc) (tmp : string)
    (arches : list Arch) (fs : FS) : result (list Arch) * FS :=
  match bs with
  | [] => (Ok arches, fs)
  | b :: rest =>
    match b env tmp fs with
    | (Err err, fs1) => (Err err, fs1)
    | (Ok arch, fs1) => run_builders env rest tmp (arches ++ [arch]) fs1
    end
  end.

Definition main `{SortSlice} (env : Env) (fs : FS) : Outcome :=
  match TempDir env with
  | None => log_Fatal ErrTempDir None fs
  | Some tmp =>
    let fs0 := Mkdir tmp fs in
    (* defer os.RemoveAll(tmp) *)
    match run_builders env builders tmp [] fs0 with
    | (Err err, fs1) => log_Fatal err None fs1
    | (Ok arches, fs1) =>
      let params := {| LinuxVersion := linuxVersion env; Arches := arches |} in
      if negb (create_ok env (outputFile env))
      then log_Fatal ErrCreateOutput None fs1
      else
        let fs2 := put_file (outputFile env) EmptyString fs1 in
        (* defer out.Close() *)
        match write_fail env (outputFile env) with
        | Some n =>
          let written := take_bytes n (Execute params) in
          log_Fatal ErrExecute (Some written)
            (put_file (outputFile env) written fs2)
        | None =>
          let fs3 := put_file (outputFile env) (Execute params) fs2 in
          (* main returns: out.Close(), then os.RemoveAll(tmp) *)
          {| exit_status := 0; logged := None;
             output := Some (Execute params); disk := RemoveAll tmp fs3 |}
        end
    end
  end.

(** ** What the properties are stated with *)

Definition is_Err {A : Type} (r : result A) : bool :=
  match r with Ok _ => false | Err _ => true end.

(** What one scanned line adds to the list: the pair of the parser, if any. *)
Definition yield (parse : parseFunc) (raw : string) : option Syscall :=
  match parse (TrimSpace raw) with
  | Ok o => o
  | Err _ => None
  end.

(** The text served for [path] of the source tree. *)
Definition fetched (env : Env) (path : string) : string :=
  match http_Get env (baseURL +:+ linuxVersion env +:+ path) with
  | Some resp => Body resp
  | None => EmptyString
  end.

(** The lines [Scan] delivers for that text. *)
Definition linesOf (env : Env) (path : string) : list string :=
  (Scanner (fetched env path)).1.

(** The pairs [readSyscalls] collects from that text, in the order of the
    lines. *)
Definition parsed (parse : parseFunc) (env : Env) (path : string)
    : list Syscall :=
  (scanSyscalls parse (fetched env path)).1.

Definition parsedARM (env : Env) : list Syscall :=
  parsed parseARMTable env "/arch/arm/tools/syscall.tbl"
  ++ parsed parseARMHeader env "/arch/arm/include/uapi/asm/unistd.h".

Definition parsedAARCH64 (env : Env) : list Syscall :=
  parsed parseAARCH64 env "/include/uapi/asm-generic/unistd.h".

Definition parsed386 (env : Env) : list Syscall :=
  parsed parse386 env "/arch/x86/entry/syscalls/syscall_32.tbl".

Definition parsedX32 (env : Env) : list Syscall :=
  parsed parseX32 env "/arch/x86/entry/syscalls/syscall_64.tbl".

Definition parsedX86_64 (env : Env) : list Syscall :=
  parsed parseX86_64 env "/arch/x86/entry/syscalls/syscall_64.tbl".

(** Every builder with the pairs it parses. *)
Definition architectures `{SortSlice}
    : list (builderFunc * (Env → list Syscall)) :=
  [ (buildARM, parsedARM); (buildAARCH64, parsedAARCH64);
    (build386, parsed386); (buildX32, parsedX32);
    (buildX86_64, parsedX86_64) ].

(** The two header patterns read as descriptions of a line, without
    reference to how a match is searched for. *)

Fixpoint all_of (f : ascii → bool) (s : string) : bool :=
  match s with
  | EmptyString => true
  | String c r => f c && all_of f r
  end.

(** A non-empty run of bytes of a class. *)
Definition run_of (f : ascii → bool) (s : string) : Prop :=
  s ≠ EmptyString ∧ all_of f s = true.

(** [s] does not continue a run of the class. *)
Definition starts_outside (f : ascii → bool) (s : string) : bool :=
  match s with
  | EmptyString => true
  | String c _ => negb (f c)
  end.

(** [line] starts with [#define __ARM_NR_<syscall><space>(__ARM_NR_BASE+<number>)],
    which is [whole]. *)
Definition matchesARM (line whole syscall number : string) : Prop :=
  ∃ sp rest,
    whole = "#define __ARM_NR_" +:+ syscall +:+ sp +:+ "(__ARM_NR_BASE+"
              +:+ number +:+ ")"
    ∧ line = whole +:+ rest
    ∧ run_of is_name_char syscall ∧ run_of is_regex_space sp
    ∧ run_of is_digit number.

(** [line] starts with [#define __NR_<syscall><space><number>] or with
    [#define __NR3264_<syscall><space><number>], which is [whole]; [number]
    takes all the digits there are. *)
Definition matchesNR (line whole syscall number : string) : Prop :=
  ∃ opt sp rest,
    (opt = EmptyString ∨ opt = "3264")
    ∧ whole = "#define __NR" +:+ opt +:+ "_" +:+ syscall +:+ sp +:+ number
    ∧ line = whole +:+ rest
    ∧ run_of is_name_char syscall ∧ run_of is_regex_space sp
    ∧ run_of is_digit number ∧ starts_outside is_digit rest = true.

(** The architectures [main] hands to the template when every builder
    succeeds, in the order of [builders]. *)
Definition archesOf `{SortSlice} (env : Env) : list Arch :=
  [ {| ArchName := "ARM"; Syscalls := sort_Slice numLess (parsedARM env) |};
    {| ArchName := "AARCH64";
       Syscalls := sort_Slice numLess (parsedAARCH64 env) |};
    {| ArchName := "386"; Syscalls := sort_Slice numLess (parsed386 env) |};
    {| ArchName := "X32"; Syscalls := sort_Slice numLess (parsedX32 env) |};
    {| ArchName := "X86_64";
       Syscalls := sort_Slice numLess (parsedX86_64 env) |} ].

Definition paramsOf `{SortSlice} (env : Env) : TemplateParams :=
  {| LinuxVersion := linuxVersion env; Arches := archesOf env |}.

(** Every file the builders read, with the parser applied to its lines. *)
Definition source_files : list (parseFunc * string) :=
  [ (parseARMTable, "/arch/arm/tools/syscall.tbl");
    (parseARMHeader, "/arch/arm/include/uapi/asm/unistd.h");
    (parseAARCH64, "/include/uapi/asm-generic/unistd.h");
    (parse386, "/arch/x86/entry/syscalls/syscall_32.tbl");
    (parseX32, "/arch/x86/entry/syscalls/syscall_64.tbl");
    (parseX86_64, "/arch/x86/entry/syscalls/syscall_64.tbl") ].

(** The parser fails on this line. *)
Definition bad_line (parse : parseFunc) (raw : string) : Prop :=
  is_Err (parse (TrimSpace raw)) = true.

(** The second field of a line, its ABI tag in a table file. *)
Definition abi (raw : string) : option string := Fields (TrimSpace raw) !! 1%nat.

Definition abi_is (tag : string) (raw : string) : bool :=
  match abi raw with
  | Some a => String.eqb a tag
  | None => false
  end.

(** Ascending by number. *)
Definition ascending (l : list Syscall) : Prop :=
  StronglySorted (λ x y, Num x ≤ Num y) l.

(** [output] lists the pairs of every number in the order [input] has
    them: what a stable sort guarantees. *)
Definition keeps_input_order (input output : list Syscall) : Prop :=
  ∀ n, filter (λ s, Num s = n) output = filter (λ s, Num s = n) input.

(** No two pairs have the same number. *)
Definition unique_numbers (l : list Syscall) : Prop := NoDup (map Num l).

(** ** Fixtures: a small file of each format, and runs over them *)

Definition unlines (ls : list string) : string :=
  String.concat "" (map (λ l, l +:+ nl) ls).

Definition fixtureARMTable : string :=
  unlines [
    "# This file contains the system call numbers.";
    "";
    "3" +:+ tab +:+ "common" +:+ tab +:+ "read" +:+ tab +:+ tab +:+ "sys_read";
    "1" +:+ tab +:+ "common" +:+ tab +:+ "exit" +:+ tab +:+ tab +:+ "sys_exit";
    "7" +:+ tab +:+ "oabi" +:+ tab +:+ "waitpid" +:+ tab +:+ "sys_ni_syscall";
    "  403  eabi  clock_gettime64  sys_clock_gettime " ].

Definition fixtureARMHeader : string :=
  unlines [
    "#define __ARM_NR_BASE" +:+ tab +:+ "(__NR_SYSCALL_BASE+0x0f0000)";
    "#define __ARM_NR_breakpoint" +:+ tab +:+ tab +:+ "(__ARM_NR_BASE+1)";
    "#define __ARM_NR_set_tls  (__ARM_NR_BASE+5)" ].

Definition fixtureGenericHeader : string :=
  unlines [
    "#define __NR_io_setup 0";
    "#define __NR3264_fcntl 25";
    "#define __NR_sync_file_range2 84";
    "#define __NR_sync_file_range 84";
    "#define __NR_fcntl __NR3264_fcntl";
    "#define __NR_syscalls 463" ].

Definition fixture386 : string :=
  unlines [ "1 i386 exit sys_exit"; "0 i386 restart_syscall sys_restart_syscall" ].

Definition fixtureX86 : string :=
  unlines [
    "0 common read sys_read";
    "13 64 rt_sigaction sys_rt_sigaction";
    "512 x32 rt_sigaction compat_sys_rt_sigaction" ].

(** Answers every request of a run for version [v6.13] from [bodies]: the
    texts of the ARM table, the ARM header, the generic header, the 386 table
    and the x86-64 table. *)
Definition serve (status : Z) (bodies : list string) (url : string)
    : option Response :=
  let at_ (path : string) := String.eqb url (baseURL +:+ "v6.13" +:+ path) in
  let reply (i : nat) := Some {| StatusCode := status; Body := bodies !!! i |} in
  if at_ "/arch/arm/tools/syscall.tbl" then reply 0%nat
  else if at_ "/arch/arm/include/uapi/asm/unistd.h" then reply 1%nat
  else if at_ "/include/uapi/asm-generic/unistd.h" then reply 2%nat
  else if at_ "/arch/x86/entry/syscalls/syscall_32.tbl" then reply 3%nat
  else if at_ "/arch/x86/entry/syscalls/syscall_64.tbl" then reply 4%nat
  else None.

Definition fixtureBodies : list string :=
  [fixtureARMTable; fixtureARMHeader; fixtureGenericHeader; fixture386; fixtureX86].

Definition envWith (get : string → option Response) (tmp : string) : Env :=
  {| linuxVersion := "v6.13"; outputFile := "zsyscalls.go";
     http_Get := get; TempDir := Some tmp;
     create_ok := λ _, true; write_fail := λ _, None |}.

(** A 386 table in which two lines carry the same number. *)
Definition fixtureTwice : string :=
  unlines [ "1 i386 exit sys_exit"; "1 i386 quit sys_quit" ].

Definition envTwice : Env :=
  envWith (serve 200 [fixtureARMTable; fixtureARMHeader; fixtureGenericHeader;
                      fixtureTwice; fixtureX86])
          "/tmp/mk_linux_syscalls123".

(** A 386 table with a line of two fields. *)
Definition fixtureShort : string :=
  unlines [ "1 i386 exit sys_exit"; "2 i386" ].

Definition envShort : Env :=
  envWith (serve 200 [fixtureARMTable; fixtureARMHeader; fixtureGenericHeader;
                      fixtureShort; fixtureX86])
          "/tmp/mk_linux_syscalls123".

(** The run of [fixtureEnv] with another scratch directory. *)
Definition fixtureEnvElsewhere : Env :=
  envWith (serve 200 fixtureBodies) "/var/tmp/mk_linux_syscalls987".

(** A disk on which a scratch file of an earlier run is left. *)
Definition staleFS : FS :=
  Mkdir "/var/tmp/mk_linux_syscalls987"
    (put_file "/var/tmp/mk_linux_syscalls987/syscall_32.tbl" "9 i386 stale sys_stale"
       {| dirs := ∅; files := ∅ |}).

(** A 386 table of fifty lines in descending order of their numbers, the
    first two with the same number. *)
Definition tableLine (num : Z) (name : string) : string :=
  itoa num +:+ " i386 " +:+ name +:+ " sys_" +:+ name.

Definition fixtureDescending : string :=
  unlines (tableLine 49 "first" :: tableLine 49 "second"
           :: map (λ k, tableLine (Z.of_nat k) ("call" +:+ itoa (Z.of_nat k)))
                (rev (seq 0 48))).

Definition envDescending : Env :=
  envWith (serve 200 [fixtureARMTable; fixtureARMHeader; fixtureGenericHeader;
                      fixtureDescending; fixtureX86])
          "/tmp/mk_linux_syscalls123".

(** A run in which everything works. *)
Definition fixtureEnv : Env :=
  envWith (serve 200 fixtureBodies) "/tmp/mk_linux_syscalls123".

(** A run in which every download is answered with status 404. *)
Definition env404 : Env :=
  envWith (serve 404 fixtureBodies) "/tmp/mk_linux_syscalls123".

Definition emptyFS : FS := {| dirs := ∅; files := ∅ |}.

(** ** What the further properties are stated with *)

Fixpoint repeat_byte (n : nat) (c : ascii) : string :=
  match n with O => EmptyString | S k => String c (repeat_byte k c) end.

(** A 386 table whose second line is as long as the buffer of the Scanner. *)
Definition fixtureLong : string :=
  unlines [ "1 i386 exit sys_exit"; repeat_byte (N.to_nat 65536) "a" ].

Definition envLong : Env :=
  envWith (serve 200 [fixtureARMTable; fixtureARMHeader; fixtureGenericHeader;
                      fixtureLong; fixtureX86])
          "/tmp/mk_linux_syscalls123".

(** The file at [path] is served with status 200, its scratch copy in [dir]
    can be written, every line fits the buffer of the Scanner and [parse]
    fails on none. *)
Definition file_ok (env : Env) (dir : string) (parse : parseFunc)
    (path : string) : Prop :=
  let url := baseURL +:+ linuxVersion env +:+ path in
  let name := Join dir (Base url) in
  ∃ resp, http_Get env url = Some resp ∧ StatusCode resp = StatusOK
          ∧ create_ok env name = true ∧ write_fail env name = None
          ∧ (Scanner (Body resp)).2 = None
          ∧ Forall (λ raw, ¬ bad_line parse raw) (Scanner (Body resp)).1.

(** [parse] fails on no line of [lines]. *)
Definition all_parse (parse : parseFunc) (lines : list string) : bool :=
  forallb (λ raw, negb (is_Err (parse (TrimSpace raw)))) lines.

(** Every file the builders read is fine, with [dir] for the scratch
    copies. *)
Definition files_ok (env : Env) (dir : string) : Prop :=
  ∀ parse path, (parse, path) ∈ source_files → file_ok env dir parse path.


(** Some line of the text does not fit the buffer of the Scanner. *)
Definition has_long_line (content : string) : bool :=
  existsb (λ l, (MaxScanTokenSize <=? N.of_nat (String.length l))%N)
    (raw_lines EmptyString content).

(** Where the scratch copies of the fetched files go. *)
Definition scratch_keys (env : Env) (tmp : string) : list string :=
  map (λ file : parseFunc * string,
         Clean (Join tmp (Base (baseURL +:+ linuxVersion env +:+ file.2))))
      source_files.

(** The run of [fixtureEnv] with its output file in the scratch directory. *)
Definition envOutInside : Env :=
  {| linuxVersion := "v6.13";
     outputFile := "/tmp/mk_linux_syscalls123/zsyscalls.go";
     http_Get := serve 200 fixtureBodies;
     TempDir := Some "/tmp/mk_linux_syscalls123";
     create_ok := λ _, true; write_fail := λ _, None |}.

(** A disk with a file that is no business of the generator. *)
Definition homeFS : FS :=
  put_file "/home/user/notes.txt" "keep" (Mkdir "/home/user" emptyFS).

(** [filepath.IsAbs] *)
Definition IsAbs (path : string) : bool := HasPrefix path "/".

(** [filepath.Abs] in the working directory [wd]: the file that the system
    takes a name to mean. *)
Definition Abs (wd path : string) : string :=
  if IsAbs path then Clean path else Join wd path.

(** The disk is keyed by path, so one file has one key only when every name
    is absolute.  A run started in the directory [wd] is the run in which the
    two names that come from outside, the value of [-out] and the directory
    that [ioutil.TempDir] returns, stand for the files the system takes them
    to mean there. *)
Definition in_dir (wd : string) (env : Env) : Env :=
  {| linuxVersion := linuxVersion env;
     outputFile := Abs wd (outputFile env);
     http_Get := http_Get env;
     TempDir := Abs wd <$> TempDir env;
     create_ok := create_ok env;
     write_fail := write_fail env |}.

(** [homeFS] with an output file of an earlier run in the home directory. *)
Definition homeFSOld : FS :=
  put_file "/home/user/zsyscalls.go" "old text" homeFS.

(** The white space of one byte: tab to carriage return, and the space. *)
Definition is_ascii_space (c : ascii) : bool :=
  ((9 <=? byte c) && (byte c <=? 13) || (byte c =? 32))%N.

(** Not empty, and without a white space byte. *)
Definition blank_free (s : string) : Prop :=
  s ≠ EmptyString ∧ all_of (λ c, negb (is_ascii_space c)) s = true.

(** The number of newlines of a text, which is the number of its lines when
    it ends with one. *)
Fixpoint count_nl (s : string) : nat :=
  match s with
  | EmptyString => 0%nat
  | String c r => ((if Ascii.eqb c newline then 1 else 0) + count_nl r)%nat
  end.

(** Why a table parser fails on [line] with [e]; [skips] says which ABI
    fields the parser skips. *)
Definition table_failure (skips : string → bool) (line : string) (e : error)
    : Prop :=
  len_is_zero line = false ∧ HasPrefix line "#" = false
  ∧ ((e = ErrUnexpectedLine line ∧ (length (Fields line) < 3)%nat)
     ∨ ∃ f0 f1 f2 rest,
         Fields line = f0 :: f1 :: f2 :: rest ∧ skips f1 = false
         ∧ Atoi f0 = None ∧ e = ErrParseNumber line).

(** The shape the four table closures share. *)
Definition tableParser (skips : string → bool) : parseFunc := fun line =>
  if len_is_zero line || HasPrefix line "#" then Ok None
  else
    match Fields line with
    | f0 :: f1 :: f2 :: _ =>
      if skips f1 then Ok None
      else
        match Atoi f0 with
        | None => Err (ErrParseNumber line)
        | Some num => Ok (Some {| Num := num; Name := f2 |})
        end
    | _ => Err (ErrUnexpectedLine line)
    end.

(** The run of [fixtureEnv] on a disk that takes ten bytes of the output
    file and no more. *)
Definition envDiskFull : Env :=
  {| linuxVersion := "v6.13"; outputFile := "zsyscalls.go";
     http_Get := serve 200 fixtureBodies;
     TempDir := Some "/tmp/mk_linux_syscalls123";
     create_ok := λ _, true;
     write_fail := λ name, if String.eqb name "zsyscalls.go" then Some 10%nat
                           else None |}.

(** A path element: not empty and without a separator. *)
Definition plain_name (name : string) : Prop :=
  name ≠ EmptyString ∧ all_of (λ c, negb (Ascii.eqb c slash)) name = true.

(** The 386 table of [fixture386] with its lines the other way round. *)
Definition fixture386Swapped : string :=
  unlines [ "0 i386 restart_syscall sys_restart_syscall"; "1 i386 exit sys_exit" ].

Definition envSwapped : Env :=
  envWith (serve 200 [fixtureARMTable; fixtureARMHeader; fixtureGenericHeader;
                      fixture386Swapped; fixtureX86])
          "/tmp/mk_linux_syscalls123".

(** * Properties *)

(** ** The library functions on small inputs *)

Example Fields_ex :
  Fields ("3" +:+ tab +:+ "common  read" +:+ tab +:+ tab +:+ "sys_read ")
  = ["3"; "common"; "read"; "sys_read"]
  ∧ Fields "  " = [].
Proof. by split. Qed.

(** A no-break space (U+00A0, bytes 194 160) separates fields and is
    trimmed; the lone byte 160 is not white space. *)
Example Fields_unicode_ex :
  let nbsp := String (ascii_of_nat 194) (String (ascii_of_nat 160) EmptyString) in
  let lone := String (ascii_of_nat 160) EmptyString in
  Fields ("a" +:+ nbsp +:+ "b") = ["a"; "b"]
  ∧ TrimSpace (nbsp +:+ "a" +:+ nbsp) = "a"
  ∧ Fields ("a" +:+ lone +:+ "b") = ["a" +:+ lone +:+ "b"].
Proof. by repeat split. Qed.

Example TrimSpace_ex :
  TrimSpace ("  a b " +:+ tab) = "a b" ∧ TrimSpace (" " +:+ tab) = EmptyString.
Proof. by split. Qed.

Example Atoi_ex :
  Atoi "-12" = Some (-12) ∧ Atoi "+7" = Some 7 ∧ Atoi "007" = Some 7
  ∧ Atoi "+" = None ∧ Atoi "" = None ∧ Atoi "1_0" = None ∧ Atoi "0x10" = None
  ∧ Atoi "9223372036854775807" = Some maxInt
  ∧ Atoi "9223372036854775808" = None
  ∧ Atoi "-9223372036854775808" = Some minInt.
Proof. by repeat split. Qed.

Example wrap_int_ex :
  wrap_int (maxInt + armNrBase) = minInt + armNrBase - 1.
Proof. reflexivity. Qed.

Example Scanner_ex :
  Scanner ("a" +:+ String carriage_return nl +:+ nl +:+ "b") = (["a"; ""; "b"], None)
  ∧ Scanner ("a" +:+ nl) = (["a"], None)
  ∧ Scanner EmptyString = ([], None).
Proof. by repeat split. Qed.

Example filepath_ex :
  Clean "/a/../../b/./c//d/.." = "/b/c" ∧ Clean "a/../.." = ".."
  ∧ Clean "" = "." ∧ Clean "../a/" = "../a"
  ∧ Base "/a/b//" = "b" ∧ Base "///" = "/" ∧ Base "" = "."
  ∧ Join "/tmp/x" (Base (baseURL +:+ "v6.13" +:+ "/arch/arm/tools/syscall.tbl"))
    = "/tmp/x/syscall.tbl"
  ∧ Join "" "a" = "a".
Proof. by repeat split. Qed.

Example regex_ex :
  armUnistdSycallRegex ("#define __ARM_NR_cacheflush" +:+ tab
                        +:+ "(__ARM_NR_BASE+2)" +:+ tab +:+ "/* x */")
  = [ "#define __ARM_NR_cacheflush" +:+ tab +:+ "(__ARM_NR_BASE+2)";
      "cacheflush"; "2" ]
  ∧ armUnistdSycallRegex " #define __ARM_NR_cacheflush (__ARM_NR_BASE+2)" = []
  ∧ nrUnistdSycallRegex "#define __NR3264_fcntl 25"
    = ["#define __NR3264_fcntl 25"; "fcntl"; "25"]
  ∧ nrUnistdSycallRegex "#define __NR3264 25" = []
  ∧ nrUnistdSycallRegex "#define __NR_fcntl __NR3264_fcntl" = []
  ∧ nrUnistdSycallRegex "#define __NR_io_setup 0x10"
    = ["#define __NR_io_setup 0"; "io_setup"; "0"].
Proof. by repeat split. Qed.

Example parsers_ex :
  parseARMTable "3 common read sys_read"
  = Ok (Some {| Num := 3; Name := "read" |})
  ∧ parseARMTable "7 oabi waitpid sys_ni_syscall" = Ok None
  ∧ parseX32 "13 64 rt_sigaction sys_rt_sigaction"
    = Ok (Some {| Num := 13; Name := "rt_sigaction" |})
  ∧ parseX32 "0 x64 read sys_read" = Ok None
  ∧ parse386 "1 i386" = Err (ErrUnexpectedLine "1 i386")
  ∧ parse386 "one i386 exit" = Err (ErrParseNumber "one i386 exit")
  ∧ parseARMHeader "#define __ARM_NR_usr26 (__ARM_NR_BASE+3)"
    = Ok (Some {| Num := 983043; Name := "usr26" |})
  ∧ parseAARCH64 "#define __NR_sync_file_range2 84" = Ok None.
Proof. by repeat split. Qed.

(** The block the template writes for one architecture. *)
Example Execute_ex :
  renderArch {| ArchName := "386";
                Syscalls := [ {| Num := 0; Name := "restart_syscall" |};
                              {| Num := 1; Name := "exit" |} ] |}
  = nl +:+ "var syscalls386 = map[int]string{" +:+ nl
    +:+ tab +:+ "0: " +:+ dquote +:+ "restart_syscall" +:+ dquote +:+ "," +:+ nl
    +:+ tab +:+ "1: " +:+ dquote +:+ "exit" +:+ dquote +:+ "," +:+ nl
    +:+ "}" +:+ nl.
Proof. reflexivity. Qed.

(** ** The two insertion sorts meet the contract of [sort.Slice] *)

Lemma numLess_strict_weak : strict_weak_ordering numLess.
Proof.
  unfold strict_weak_ordering, numLess.
  split; [|split]; intros; repeat
    match goal with
    | H : (_ <? _) = true |- _ => apply Z.ltb_lt in H
    | H : (_ <? _) = false |- _ => apply Z.ltb_ge in H
    | |- (_ <? _) = true => apply Z.ltb_lt
    | |- (_ <? _) = false => apply Z.ltb_ge
    end; lia.
Qed.

Section InsertionSorts.
Variable less : Syscall → Syscall → bool.

(** [x] is not after [y] in the order of [less]. *)
Let notAfter (x y : Syscall) : Prop := less y x = false.

Lemma insert_before_perm x l : insert_before less x l ≡ₚ x :: l.
Proof.
  induction l as [|y r IH]; simpl; [done|].
  destruct (less y x); [|done].
  rewrite IH. apply Permutation_swap.
Qed.

Lemma insert_after_perm x l : insert_after less x l ≡ₚ x :: l.
Proof.
  induction l as [|y r IH]; simpl; [done|].
  destruct (less x y); [done|].
  rewrite IH. apply Permutation_swap.
Qed.

Lemma stable_sort_perm l : stable_sort less l ≡ₚ l.
Proof.
  induction l as [|x l IH]; simpl; [done|].
  by rewrite insert_before_perm, IH.
Qed.

Lemma reversing_sort_perm l : reversing_sort less l ≡ₚ l.
Proof.
  induction l as [|x l IH]; simpl; [done|].
  by rewrite insert_after_perm, IH.
Qed.

Hypothesis Hless : strict_weak_ordering less.

Lemma less_asym a b : less a b = true → less b a = false.
Proof.
  destruct Hless as (Hirr & Htr & _). intros Hab.
  destruct (less b a) eqn:Hba; [|done].
  by rewrite <- (Hirr a), (Htr a b a).
Qed.

Lemma notAfter_trans a b c : notAfter a b → notAfter b c → notAfter a c.
Proof. destruct Hless as (_ & _ & Hinc). unfold notAfter. eauto. Qed.

Lemma insert_before_sorted x l :
  StronglySorted notAfter l → StronglySorted notAfter (insert_before less x l).
Proof.
  induction l as [|y r IH]; simpl; intros Hs.
  - repeat constructor.
  - apply StronglySorted_inv in Hs as [Hr Hy].
    destruct (less y x) eqn:Hyx.
    + constructor; [by apply IH|].
      rewrite insert_before_perm. constructor; [|done].
      by apply less_asym.
    + constructor; [by constructor|].
      constructor; [done|].
      eapply Forall_impl; [exact Hy|]. intros z Hz.
      by apply (notAfter_trans x y z).
Qed.

Lemma insert_after_sorted x l :
  StronglySorted notAfter l → StronglySorted notAfter (insert_after less x l).
Proof.
  induction l as [|y r IH]; simpl; intros Hs.
  - repeat constructor.
  - apply StronglySorted_inv in Hs as [Hr Hy].
    destruct (less x y) eqn:Hxy.
    + constructor; [by constructor|].
      constructor; [by apply less_asym|].
      eapply Forall_impl; [exact Hy|]. intros z Hz.
      apply (notAfter_trans x y z); [by apply less_asym|done].
    + constructor; [by apply IH|].
      rewrite insert_after_perm. by constructor.
Qed.

Lemma stable_sort_sorted l : StronglySorted notAfter (stable_sort less l).
Proof.
  induction l as [|x l IH]; simpl; [constructor|].
  by apply insert_before_sorted.
Qed.

Lemma reversing_sort_sorted l : StronglySorted notAfter (reversing_sort less l).
Proof.
  induction l as [|x l IH]; simpl; [constructor|].
  by apply insert_after_sorted.
Qed.
End InsertionSorts.

(** A [sort.Slice] that happens to be stable, and one that is not. *)
Definition stableSlice : SortSlice :=
  {| sort_Slice := stable_sort;
     sort_Slice_perm := stable_sort_perm;
     sort_Slice_sorted := λ less l Hless, stable_sort_sorted less Hless l |}.

Definition reversingSlice : SortSlice :=
  {| sort_Slice := reversing_sort;
     sort_Slice_perm := reversing_sort_perm;
     sort_Slice_sorted := λ less l Hless, reversing_sort_sorted less Hless l |}.

(** ** The table-format parsers *)

Lemma eqb_string_true (a b : string) : a = b → String.eqb a b = true.
Proof. intros ->. apply String.eqb_refl. Qed.

Lemma eqb_string_false (a b : string) : a ≠ b → String.eqb a b = false.
Proof. intros Hne. by apply String.eqb_neq. Qed.

(** What [readSyscalls] hands to the parser for a line that starts with [#]
    still starts with [#], and for an empty line is empty. *)
Lemma TrimSpace_comment (r : string) :
  HasPrefix (TrimSpace (String "#" r)) "#" = true.
Proof.
  unfold TrimSpace.
  assert (trimLeft 0 (String "#" r) = String "#" r) as ->.
  { simpl. destruct r as [|c1 [|c2 r]]; reflexivity. }
  assert (trimRight (String "#" r) = String "#" (trimRight r)) as ->.
  { change (trimRight (String "#" r))
      with (if is_empty (trimLeft 0 (String "#" r)) then EmptyString
            else String "#" (trimRight r)).
    assert (trimLeft 0 (String "#" r) = String "#" r) as ->; [|done].
    simpl. destruct r as [|c1 [|c2 r]]; reflexivity. }
  unfold HasPrefix. simpl. by destruct (trimRight r).
Qed.

Lemma TrimSpace_empty : TrimSpace EmptyString = EmptyString.
Proof. reflexivity. Qed.

Lemma HasPrefix_hash raw :
  HasPrefix raw "#" = true → ∃ r, raw = String "#" r.
Proof.
  unfold HasPrefix. destruct raw as [|c r]; [done|].
  unfold String.prefix. destruct (ascii_dec "#" c) as [<-|]; [|done]. eauto.
Qed.

Lemma skipped_line raw :
  raw = EmptyString ∨ HasPrefix raw "#" = true →
  len_is_zero (TrimSpace raw) || HasPrefix (TrimSpace raw) "#" = true.
Proof.
  intros [->|(r & ->)%HasPrefix_hash]; [done|].
  rewrite TrimSpace_comment. apply orb_true_r.
Qed.

(** C1.  A line of a table file that is empty or starts with [#] yields
    nothing from any of the four table parsers, as the parser receives it and
    as the file has it.  Any other line whose fields are [num abi name ...]
    yields nothing from the parser whose excluded variant [abi] is ([oabi]
    for ARM, [x64] for X32, [x32] for X86_64), and otherwise yields the pair
    of the number parsed from the first field and the third field as the
    name. *)
Theorem table_parsers_yield (line : string) :
  (len_is_zero line = true ∨ HasPrefix line "#" = true →
     parseARMTable line = Ok None ∧ parse386 line = Ok None
     ∧ parseX32 line = Ok None ∧ parseX86_64 line = Ok None)
  ∧ (line = EmptyString ∨ HasPrefix line "#" = true →
     yield parseARMTable line = None ∧ yield parse386 line = None
     ∧ yield parseX32 line = None ∧ yield parseX86_64 line = None)
  ∧ (∀ f0 f1 f2 rest,
       len_is_zero line = false → HasPrefix line "#" = false →
       Fields line = f0 :: f1 :: f2 :: rest →
       (f1 = "oabi" → parseARMTable line = Ok None)
       ∧ (f1 = "x64" → parseX32 line = Ok None)
       ∧ (f1 = "x32" → parseX86_64 line = Ok None)
       ∧ ∀ num, Atoi f0 = Some num →
           let s := {| Num := num; Name := f2 |} in
           (f1 ≠ "oabi" → parseARMTable line = Ok (Some s))
           ∧ parse386 line = Ok (Some s)
           ∧ (f1 ≠ "x64" → parseX32 line = Ok (Some s))
           ∧ (f1 ≠ "x32" → parseX86_64 line = Ok (Some s))).
Proof.
  split; [|split].
  - intros Hskip.
    assert (len_is_zero line || HasPrefix line "#" = true) as Hb
      by (destruct Hskip as [-> | ->]; [done | apply orb_true_r]).
    unfold parseARMTable, parse386, parseX32, parseX86_64.
    by rewrite Hb.
  - intros Hb%skipped_line.
    unfold yield, parseARMTable, parse386, parseX32, parseX86_64.
    by rewrite Hb.
  - intros f0 f1 f2 rest Hlen Hpre Hfields.
    unfold parseARMTable, parse386, parseX32, parseX86_64.
    rewrite Hlen, Hpre, Hfields. simpl.
    split; [by intros ->|]. split; [by intros ->|]. split; [by intros ->|].
    intros num Hnum. rewrite Hnum.
    split; [|split; [done|split]];
      intros Hne; by rewrite (eqb_string_false _ _ Hne).
Qed.

Lemma table_parsers_yield_witness :
  parseARMTable "7 oabi waitpid sys_ni_syscall" = Ok None
  ∧ parseX86_64 "13 64 rt_sigaction sys_rt_sigaction"
    = Ok (Some {| Num := 13; Name := "rt_sigaction" |})
  ∧ parse386 "# a comment" = Ok None.
Proof.
  split; [|split].
  - destruct (table_parsers_yield "7 oabi waitpid sys_ni_syscall")
      as (_ & _ & Hf).
    by apply (Hf "7" "oabi" "waitpid" ["sys_ni_syscall"]).
  - destruct (table_parsers_yield "13 64 rt_sigaction sys_rt_sigaction")
      as (_ & _ & Hf).
    destruct (Hf "13" "64" "rt_sigaction" ["sys_rt_sigaction"])
      as (_ & _ & _ & Hnum); [reflexivity ..|].
    by apply (Hnum 13).
  - destruct (table_parsers_yield "# a comment") as [Hskip _].
    apply Hskip. by right.
Defined.

(** ** The loop of [readSyscalls] *)

Lemma scan_loop_ok parse lines acc l :
  scan_loop parse lines acc = Ok l →
  l = acc ++ omap (yield parse) lines
  ∧ Forall (λ raw, is_Err (parse (TrimSpace raw)) = false) lines.
Proof.
  revert acc. induction lines as [|raw lines IH]; simpl; intros acc Hl.
  - injection Hl as <-. by rewrite app_nil_r.
  - unfold yield. destruct (parse (TrimSpace raw)) as [[s|]|e] eqn:Hp; [| |done].
    + apply IH in Hl as [-> Hall].
      split; [by rewrite <- app_assoc|].
      constructor; [by rewrite Hp|done].
    + apply IH in Hl as [-> Hall].
      split; [done|]. constructor; [by rewrite Hp|done].
Qed.

Lemma scan_loop_complete parse lines acc :
  Forall (λ raw, is_Err (parse (TrimSpace raw)) = false) lines →
  scan_loop parse lines acc = Ok (acc ++ omap (yield parse) lines).
Proof.
  revert acc. induction lines as [|raw lines IH]; simpl; intros acc Hall.
  - by rewrite app_nil_r.
  - apply Forall_cons in Hall as [Hraw Hall]. unfold yield.
    destruct (parse (TrimSpace raw)) as [[s|]|e]; [| |done].
    + rewrite IH by done. by rewrite <- app_assoc.
    + by apply IH.
Qed.

(** A line on which the parser fails ends the loop with an error of the
    parser, whatever was collected before. *)
Lemma scan_loop_err parse lines acc :
  Exists (λ raw, is_Err (parse (TrimSpace raw)) = true) lines →
  ∃ e raw, scan_loop parse lines acc = Err e
           ∧ raw ∈ lines ∧ parse (TrimSpace raw) = Err e.
Proof.
  revert acc. induction lines as [|raw lines IH]; intros acc Hex.
  - by apply Exists_nil in Hex.
  - simpl. destruct (parse (TrimSpace raw)) as [[s|]|e] eqn:Hp.
    + apply Exists_cons in Hex as [Hraw|Hex]; [by rewrite Hp in Hraw|].
      destruct (IH (acc ++ [s]) Hex) as (e & r & He & Hin & Hr).
      exists e, r. split; [done|]. split; [by right|done].
    + apply Exists_cons in Hex as [Hraw|Hex]; [by rewrite Hp in Hraw|].
      destruct (IH acc Hex) as (e & r & He & Hin & Hr).
      exists e, r. split; [done|]. split; [by right|done].
    + exists e, raw. split; [done|]. split; [by left|done].
Qed.

Lemma scanSyscalls_ok parse content l :
  scanSyscalls parse content = (l, None) →
  l = omap (yield parse) (Scanner content).1
  ∧ (Scanner content).2 = None
  ∧ Forall (λ raw, is_Err (parse (TrimSpace raw)) = false) (Scanner content).1.
Proof.
  unfold scanSyscalls. destruct (Scanner content) as [lines scanErr]. simpl.
  destruct (scan_loop parse lines []) as [syscalls|e] eqn:Hloop; [|done].
  intros [= <- ->]. by apply scan_loop_ok in Hloop as [-> Hall].
Qed.

(** ** [downloadFile] and [readSyscalls] *)

Lemma os_Open_put_file name content fs :
  os_Open name (put_file name content fs) = Some content.
Proof. unfold os_Open, put_file. simpl. apply lookup_insert_eq. Qed.

Lemma downloadFile_ok env url dir fs name fs' :
  downloadFile env url dir fs = (Ok name, fs') →
  ∃ resp, http_Get env url = Some resp ∧ StatusCode resp = StatusOK
          ∧ name = Join dir (Base url)
          ∧ create_ok env name = true ∧ write_fail env name = None
          ∧ fs' = put_file name (Body resp) fs.
Proof.
  unfold downloadFile. destruct (http_Get env url) as [resp|]; [|done].
  destruct (StatusCode resp =? StatusOK) eqn:Hst; simpl; [|done].
  destruct (create_ok env _) eqn:Hcr; simpl; [|done].
  destruct (write_fail env _) eqn:Hwr; [done|].
  intros [= <- <-]. exists resp. apply Z.eqb_eq in Hst. done.
Qed.

Lemma readSyscalls_ok env path dir parse fs l fs' :
  readSyscalls env path dir parse fs = ((l, None), fs') →
  l = parsed parse env path
  ∧ scanSyscalls parse (fetched env path) = (l, None)
  ∧ dirs fs' = dirs fs.
Proof.
  unfold readSyscalls, parsed, fetched.
  destruct (downloadFile env _ dir fs) as [[name|e] fs1] eqn:Hdl; [|done].
  apply downloadFile_ok in Hdl as (resp & -> & _ & _ & _ & _ & ->).
  rewrite os_Open_put_file. intros [= Hscan <-]. by rewrite Hscan.
Qed.

(** ** The builders *)

Lemma StronglySorted_weaken {A : Type} (R R' : A → A → Prop) (l : list A) :
  (∀ x y, R x y → R' x y) → StronglySorted R l → StronglySorted R' l.
Proof.
  intros Himp. induction 1 as [|x l Hl IH Hx]; constructor; [done|].
  eapply Forall_impl; [exact Hx|]. intros y. apply Himp.
Qed.

Section BuilderFacts.
Context `{SortSlice}.

Ltac single_file_builder :=
  match goal with
  | |- context [readSyscalls ?env ?path ?dir ?parse ?fs] =>
    destruct (readSyscalls env path dir parse fs) as [[l [e|]] fs1] eqn:Hread;
    [done|];
    apply readSyscalls_ok in Hread as (-> & _ & Hdirs);
    intros [= <- <-]; by split
  end.

Lemma buildARM_ok env dir fs arch fs' :
  buildARM env dir fs = (Ok arch, fs') →
  arch = {| ArchName := "ARM"; Syscalls := sort_Slice numLess (parsedARM env) |}
  ∧ dirs fs' = dirs fs.
Proof.
  unfold buildARM, parsedARM.
  destruct (readSyscalls env _ dir parseARMTable fs) as [[la [e|]] fs1] eqn:Ha;
    [done|].
  apply readSyscalls_ok in Ha as (-> & _ & Hd1).
  destruct (readSyscalls env _ dir parseARMHeader fs1) as [[lb [e|]] fs2] eqn:Hb;
    [done|].
  apply readSyscalls_ok in Hb as (-> & _ & Hd2).
  intros [= <- <-]. split; [done|congruence].
Qed.

Lemma buildAARCH64_ok env dir fs arch fs' :
  buildAARCH64 env dir fs = (Ok arch, fs') →
  arch = {| ArchName := "AARCH64";
            Syscalls := sort_Slice numLess (parsedAARCH64 env) |}
  ∧ dirs fs' = dirs fs.
Proof. unfold buildAARCH64, parsedAARCH64. single_file_builder. Qed.

Lemma build386_ok env dir fs arch fs' :
  build386 env dir fs = (Ok arch, fs') →
  arch = {| ArchName := "386"; Syscalls := sort_Slice numLess (parsed386 env) |}
  ∧ dirs fs' = dirs fs.
Proof. unfold build386, parsed386. single_file_builder. Qed.

Lemma buildX32_ok env dir fs arch fs' :
  buildX32 env dir fs = (Ok arch, fs') →
  arch = {| ArchName := "X32"; Syscalls := sort_Slice numLess (parsedX32 env) |}
  ∧ dirs fs' = dirs fs.
Proof. unfold buildX32, parsedX32. single_file_builder. Qed.

Lemma buildX86_64_ok env dir fs arch fs' :
  buildX86_64 env dir fs = (Ok arch, fs') →
  arch = {| ArchName := "X86_64";
            Syscalls := sort_Slice numLess (parsedX86_64 env) |}
  ∧ dirs fs' = dirs fs.
Proof. unfold buildX86_64, parsedX86_64. single_file_builder. Qed.

(** The final list of every architecture is [sort.Slice] applied to the
    pairs parsed for it. *)
Lemma architectures_ok b p env dir fs arch fs' :
  (b, p) ∈ architectures →
  b env dir fs = (Ok arch, fs') →
  Syscalls arch = sort_Slice numLess (p env).
Proof.
  unfold architectures. rewrite !elem_of_cons, elem_of_nil.
  intros [Hb|[Hb|[Hb|[Hb|[Hb|[]]]]]]; injection Hb as -> ->; intros Hrun.
  - by apply buildARM_ok in Hrun as [-> _].
  - by apply buildAARCH64_ok in Hrun as [-> _].
  - by apply build386_ok in Hrun as [-> _].
  - by apply buildX32_ok in Hrun as [-> _].
  - by apply buildX86_64_ok in Hrun as [-> _].
Qed.

Lemma sort_Slice_ascending l : ascending (sort_Slice numLess l).
Proof.
  unfold ascending.
  eapply StronglySorted_weaken;
    [|apply (sort_Slice_sorted numLess l numLess_strict_weak)].
  intros x y. unfold numLess. by intros ?%Z.ltb_ge.
Qed.
End BuilderFacts.

(** ** Order and duplicates in the final lists *)

Lemma insert_before_keeps_order x l :
  keeps_input_order (x :: l) (insert_before numLess x l).
Proof.
  intros n. induction l as [|y r IH]; simpl; [done|].
  destruct (numLess y x) eqn:Hyx; [|done].
  apply Z.ltb_lt in Hyx.
  rewrite (filter_cons _ y), IH, !filter_cons.
  repeat case_decide; try done; lia.
Qed.

(** [stable_sort] is stable. *)
Lemma stable_sort_keeps_order l : keeps_input_order l (stable_sort numLess l).
Proof.
  intros n. induction l as [|x l IH]; simpl; [done|].
  rewrite insert_before_keeps_order, !filter_cons. by rewrite IH.
Qed.

Lemma unique_numbers_perm l1 l2 :
  l1 ≡ₚ l2 → unique_numbers l1 ↔ unique_numbers l2.
Proof. unfold unique_numbers. intros Hp. by rewrite Hp. Qed.

Lemma unique_numbers_inj l x y :
  unique_numbers l → x ∈ l → y ∈ l → Num x = Num y → x = y.
Proof.
  unfold unique_numbers. induction l as [|z l IH]; simpl.
  - by intros _ ?%elem_of_nil.
  - intros [Hz Hl]%NoDup_cons [->|Hx]%elem_of_cons [->|Hy]%elem_of_cons Heq.
    + done.
    + destruct Hz. rewrite Heq. by apply list_elem_of_fmap_2.
    + destruct Hz. rewrite <- Heq. by apply list_elem_of_fmap_2.
    + by apply IH.
Qed.

(** With distinct numbers there is one ascending arrangement only. *)
Lemma ascending_unique l1 l2 :
  unique_numbers l1 → ascending l1 → ascending l2 → l1 ≡ₚ l2 → l1 = l2.
Proof.
  intros Huniq Hs1 Hs2 Hp.
  apply (StronglySorted_unique_strong (λ x y, Num x ≤ Num y)); try done.
  intros x y Hx Hy Hxy Hyx. apply (unique_numbers_inj l1); [done..| |lia].
  by rewrite Hp.
Qed.

(** C3, as the code has it.  For every architecture the final list is a
    rearrangement of the pairs parsed for it, ascending by number.  Pairs
    with the same number come in the order [sort.Slice] leaves them in, which
    need not be the order of the input; when the parsed numbers are all
    different the final list is the one a stable sort gives. *)
Theorem final_list_sorted `{SortSlice} b p env dir fs arch fs' :
  (b, p) ∈ architectures →
  b env dir fs = (Ok arch, fs') →
  ascending (Syscalls arch)
  ∧ Syscalls arch ≡ₚ p env
  ∧ (unique_numbers (p env) →
     Syscalls arch = stable_sort numLess (p env)
     ∧ keeps_input_order (p env) (Syscalls arch)).
Proof.
  intros Hin Hrun. rewrite (architectures_ok _ _ _ _ _ _ _ Hin Hrun).
  split; [apply sort_Slice_ascending|].
  split; [apply sort_Slice_perm|].
  intros Huniq.
  assert (sort_Slice numLess (p env) = stable_sort numLess (p env)) as ->.
  { apply ascending_unique.
    - by apply (unique_numbers_perm _ (p env) (sort_Slice_perm _ _)).
    - apply sort_Slice_ascending.
    - apply (sort_Slice_ascending (H:=stableSlice)).
    - by rewrite sort_Slice_perm, stable_sort_perm. }
  split; [done|apply stable_sort_keeps_order].
Qed.

Lemma final_list_sorted_witness :
  let final := [ {| Num := 0; Name := "restart_syscall" |};
                 {| Num := 1; Name := "exit" |} ] in
  ascending final
  ∧ final ≡ₚ parsed386 fixtureEnv
  ∧ (unique_numbers (parsed386 fixtureEnv) →
     final = stable_sort numLess (parsed386 fixtureEnv)
     ∧ keeps_input_order (parsed386 fixtureEnv) final).
Proof.
  apply (final_list_sorted (H:=reversingSlice) (@build386 reversingSlice)
           parsed386 fixtureEnv
           "/tmp/scratch" emptyFS
           {| ArchName := "386";
              Syscalls := [ {| Num := 0; Name := "restart_syscall" |};
                            {| Num := 1; Name := "exit" |} ] |}
           (build386 (H:=reversingSlice) fixtureEnv "/tmp/scratch" emptyFS).2).
  - unfold architectures. do 2 right. left.
  - vm_compute. reflexivity.
Defined.

(** C3 fails as stated.  The table has fifty lines in descending order, the
    first two with the number 49.  A [sort.Slice] that meets its contract
    returns them in ascending order with the pair parsed second before the
    pair parsed first, as an implementation does that turns a descending
    run around as a whole. *)
Lemma stable_order_counterexample :
  let first := {| Num := 49; Name := "first" |} in
  let second := {| Num := 49; Name := "second" |} in
  let input := parsed386 envDescending in
  length input = 50%nat
  ∧ filter (λ s, Num s = 49) input = [first; second]
  ∧ ∃ final,
      (build386 (H:=reversingSlice) envDescending "/tmp/scratch" emptyFS).1
      = Ok {| ArchName := "386"; Syscalls := final |}
      ∧ final = rev input
      ∧ filter (λ s, Num s = 49) final = [second; first]
      ∧ ¬ keeps_input_order input final.
Proof.
  split; [by vm_compute|]. split; [by vm_compute|].
  exists (rev (parsed386 envDescending)).
  split; [by vm_compute|]. split; [done|]. split; [by vm_compute|].
  intros Hkeep. specialize (Hkeep 49). vm_compute in Hkeep. discriminate.
Qed.

(** C4, as the code has it.  The builders drop no pair and add none: the
    final list of an architecture is a rearrangement of the pairs parsed for
    it after the exclusion rules, every pair as often as it was parsed.  So
    the final list has no two pairs of the same number exactly when the
    parsed pairs have none. *)
Theorem final_list_unique_iff `{SortSlice} b p env dir fs arch fs' :
  (b, p) ∈ architectures →
  b env dir fs = (Ok arch, fs') →
  Syscalls arch ≡ₚ p env
  ∧ length (Syscalls arch) = length (p env)
  ∧ (unique_numbers (Syscalls arch) ↔ unique_numbers (p env)).
Proof.
  intros Hin Hrun. rewrite (architectures_ok _ _ _ _ _ _ _ Hin Hrun).
  pose proof (sort_Slice_perm numLess (p env)) as Hperm.
  split; [done|]. split; [by rewrite Hperm|].
  by apply unique_numbers_perm.
Qed.

Lemma final_list_unique_iff_witness :
  [ {| Num := 0; Name := "read" |}; {| Num := 13; Name := "rt_sigaction" |} ]
  ≡ₚ parsedX86_64 fixtureEnv
  ∧ length [ {| Num := 0; Name := "read" |};
             {| Num := 13; Name := "rt_sigaction" |} ]
    = length (parsedX86_64 fixtureEnv)
  ∧ (unique_numbers [ {| Num := 0; Name := "read" |};
                      {| Num := 13; Name := "rt_sigaction" |} ]
     ↔ unique_numbers (parsedX86_64 fixtureEnv)).
Proof.
  apply (final_list_unique_iff (H:=stableSlice) (@buildX86_64 stableSlice)
           parsedX86_64 fixtureEnv "/tmp/scratch" emptyFS
           {| ArchName := "X86_64";
              Syscalls := [ {| Num := 0; Name := "read" |};
                            {| Num := 13; Name := "rt_sigaction" |} ] |}
           (buildX86_64 (H:=stableSlice) fixtureEnv "/tmp/scratch" emptyFS).2).
  - unfold architectures. do 4 right. left.
  - vm_compute. reflexivity.
Defined.

(** C4 fails as stated: two lines of the same number that no rule excludes
    both reach the final list. *)
Lemma unique_numbers_counterexample :
  (build386 (H:=stableSlice) envTwice "/tmp/scratch" emptyFS).1
  = Ok {| ArchName := "386";
          Syscalls := [ {| Num := 1; Name := "exit" |};
                        {| Num := 1; Name := "quit" |} ] |}
  ∧ ¬ unique_numbers [ {| Num := 1; Name := "exit" |};
                       {| Num := 1; Name := "quit" |} ].
Proof.
  split; [by vm_compute|].
  unfold unique_numbers. simpl. intros [Hnotin _]%NoDup_cons.
  apply Hnotin. by left.
Qed.

(** ** Exclusions *)

(** A list that [readSyscalls] returns without an error holds what the
    scanned lines yield, in their order. *)
Lemma readSyscalls_yields env path dir parse fs l fs' :
  readSyscalls env path dir parse fs = ((l, None), fs') →
  parsed parse env path = omap (yield parse) (linesOf env path).
Proof.
  intros (-> & Hscan & _)%readSyscalls_ok.
  by apply scanSyscalls_ok in Hscan as (Hl & _ & _).
Qed.

Lemma omap_filter_None {A B : Type} (f : A → option B) (keep : A → bool)
    (l : list A) :
  (∀ x, keep x = false → f x = None) →
  omap f (filter (λ x, keep x = true) l) = omap f l.
Proof.
  intros Hdrop. induction l as [|x l IH]; [done|].
  rewrite filter_cons. destruct (keep x) eqn:Hk; case_decide; try done; csimpl.
  - by rewrite IH.
  - by rewrite (Hdrop x Hk), IH.
Qed.

Lemma omap_skip_tag (parse : parseFunc) (tag : string) (lines : list string) :
  (∀ raw, abi_is tag raw = true → yield parse raw = None) →
  omap (yield parse) (filter (λ raw, abi_is tag raw = false) lines)
  = omap (yield parse) lines.
Proof.
  intros Hskip.
  rewrite <- (omap_filter_None (yield parse) (λ raw, negb (abi_is tag raw)) lines).
  - f_equal. apply list_filter_iff. intros raw. by destruct (abi_is tag raw).
  - intros raw Hraw. apply Hskip. by destruct (abi_is tag raw).
Qed.

Ltac excluded_tag :=
  intros raw; unfold abi_is, abi, yield;
  match goal with |- context [Fields ?t] => generalize t end; intros line;
  match goal with |- _ → match ?parse line with _ => _ end = _ => unfold parse end;
  destruct (len_is_zero line || HasPrefix line "#"); [done|];
  destruct (Fields line) as [|f0 [|f1 [|f2 rest]]]; simpl; try done;
  by intros ->.

Lemma oabi_yields_nothing raw :
  abi_is "oabi" raw = true → yield parseARMTable raw = None.
Proof. revert raw. excluded_tag. Qed.

Lemma x64_yields_nothing raw :
  abi_is "x64" raw = true → yield parseX32 raw = None.
Proof. revert raw. excluded_tag. Qed.

Lemma x32_yields_nothing raw :
  abi_is "x32" raw = true → yield parseX86_64 raw = None.
Proof. revert raw. excluded_tag. Qed.

(** The names [parseAARCH64] never lets through. *)
Lemma parseAARCH64_names line s :
  parseAARCH64 line = Ok (Some s) →
  Name s ≠ "syscalls" ∧ Name s ≠ "sync_file_range2".
Proof.
  unfold parseAARCH64, sentinel, omit.
  destruct (nrUnistdSycallRegex line) as [|m0 [|m1 [|m2 [|]]]]; try done.
  destruct (String.eqb m1 "syscalls") eqn:Hs; [done|].
  destruct (String.eqb m1 "sync_file_range2") eqn:Ho; [done|]. simpl.
  destruct (Atoi m2); [|done]. intros [= <-]. simpl.
  by split; apply String.eqb_neq.
Qed.

Section FinalLists.
Context `{SortSlice}.

Lemma buildAARCH64_names env dir fs arch fs' s :
  buildAARCH64 env dir fs = (Ok arch, fs') →
  s ∈ Syscalls arch →
  Name s ≠ "syscalls" ∧ Name s ≠ "sync_file_range2".
Proof.
  unfold buildAARCH64.
  destruct (readSyscalls env _ dir parseAARCH64 fs) as [[l [e|]] fs1] eqn:Hread;
    [done|].
  pose proof (readSyscalls_yields _ _ _ _ _ _ _ Hread) as Hl.
  apply readSyscalls_ok in Hread as (-> & _ & _).
  intros [= <- <-]. simpl. rewrite sort_Slice_perm, Hl.
  intros (raw & _ & Hraw)%list_elem_of_omap.
  unfold yield in Hraw.
  destruct (parseAARCH64 (TrimSpace raw)) as [o|e] eqn:Hp; [|done].
  subst o. by apply parseAARCH64_names in Hp.
Qed.

Lemma buildARM_lines env dir fs arch fs' :
  buildARM env dir fs = (Ok arch, fs') →
  Syscalls arch
  ≡ₚ omap (yield parseARMTable) (linesOf env "/arch/arm/tools/syscall.tbl")
     ++ omap (yield parseARMHeader)
          (linesOf env "/arch/arm/include/uapi/asm/unistd.h").
Proof.
  unfold buildARM.
  destruct (readSyscalls env _ dir parseARMTable fs) as [[la [e|]] fs1] eqn:Ha;
    [done|].
  pose proof (readSyscalls_yields _ _ _ _ _ _ _ Ha) as Hla.
  apply readSyscalls_ok in Ha as (-> & _ & _).
  destruct (readSyscalls env _ dir parseARMHeader fs1) as [[lb [e|]] fs2] eqn:Hb;
    [done|].
  pose proof (readSyscalls_yields _ _ _ _ _ _ _ Hb) as Hlb.
  apply readSyscalls_ok in Hb as (-> & _ & _).
  intros [= <- <-]. simpl. by rewrite sort_Slice_perm, Hla, Hlb.
Qed.

Lemma buildX32_lines env dir fs arch fs' :
  buildX32 env dir fs = (Ok arch, fs') →
  Syscalls arch
  ≡ₚ omap (yield parseX32) (linesOf env "/arch/x86/entry/syscalls/syscall_64.tbl").
Proof.
  unfold buildX32.
  destruct (readSyscalls env _ dir parseX32 fs) as [[l [e|]] fs1] eqn:Hread;
    [done|].
  pose proof (readSyscalls_yields _ _ _ _ _ _ _ Hread) as Hl.
  apply readSyscalls_ok in Hread as (-> & _ & _).
  intros [= <- <-]. simpl. by rewrite sort_Slice_perm, Hl.
Qed.

Lemma buildX86_64_lines env dir fs arch fs' :
  buildX86_64 env dir fs = (Ok arch, fs') →
  Syscalls arch
  ≡ₚ omap (yield parseX86_64)
       (linesOf env "/arch/x86/entry/syscalls/syscall_64.tbl").
Proof.
  unfold buildX86_64.
  destruct (readSyscalls env _ dir parseX86_64 fs) as [[l [e|]] fs1] eqn:Hread;
    [done|].
  pose proof (readSyscalls_yields _ _ _ _ _ _ _ Hread) as Hl.
  apply readSyscalls_ok in Hread as (-> & _ & _).
  intros [= <- <-]. simpl. by rewrite sort_Slice_perm, Hl.
Qed.
End FinalLists.

(** C5.  A table line whose ABI field is the excluded variant of a parser
    yields nothing, and the final list of ARM, of X32 and of X86_64 is made
    of the pairs that the other lines yield (for ARM, with the pairs of the
    header); no pair of AARCH64's final list is named [sync_file_range2]. *)
Theorem excluded_never_in_output `{SortSlice} env dir fs arch fs' :
  (∀ raw, abi_is "oabi" raw = true → yield parseARMTable raw = None)
  ∧ (∀ raw, abi_is "x64" raw = true → yield parseX32 raw = None)
  ∧ (∀ raw, abi_is "x32" raw = true → yield parseX86_64 raw = None)
  ∧ (buildARM env dir fs = (Ok arch, fs') →
     Syscalls arch
     ≡ₚ omap (yield parseARMTable)
          (filter (λ raw, abi_is "oabi" raw = false)
             (linesOf env "/arch/arm/tools/syscall.tbl"))
        ++ omap (yield parseARMHeader)
             (linesOf env "/arch/arm/include/uapi/asm/unistd.h"))
  ∧ (buildX32 env dir fs = (Ok arch, fs') →
     Syscalls arch
     ≡ₚ omap (yield parseX32)
          (filter (λ raw, abi_is "x64" raw = false)
             (linesOf env "/arch/x86/entry/syscalls/syscall_64.tbl")))
  ∧ (buildX86_64 env dir fs = (Ok arch, fs') →
     Syscalls arch
     ≡ₚ omap (yield parseX86_64)
          (filter (λ raw, abi_is "x32" raw = false)
             (linesOf env "/arch/x86/entry/syscalls/syscall_64.tbl")))
  ∧ (buildAARCH64 env dir fs = (Ok arch, fs') →
     ∀ s, s ∈ Syscalls arch → Name s ≠ "sync_file_range2").
Proof.
  split; [apply oabi_yields_nothing|].
  split; [apply x64_yields_nothing|].
  split; [apply x32_yields_nothing|].
  split; [|split; [|split]].
  - intros Hrun. rewrite (omap_skip_tag _ _ _ oabi_yields_nothing).
    by apply buildARM_lines in Hrun.
  - intros Hrun. rewrite (omap_skip_tag _ _ _ x64_yields_nothing).
    by apply buildX32_lines in Hrun.
  - intros Hrun. rewrite (omap_skip_tag _ _ _ x32_yields_nothing).
    by apply buildX86_64_lines in Hrun.
  - intros Hrun s Hs. by destruct (buildAARCH64_names _ _ _ _ _ _ Hrun Hs).
Qed.

Lemma excluded_never_in_output_witness :
  [ {| Num := 1; Name := "exit" |}; {| Num := 3; Name := "read" |};
    {| Num := 403; Name := "clock_gettime64" |};
    {| Num := 983041; Name := "breakpoint" |};
    {| Num := 983045; Name := "set_tls" |} ]
  ≡ₚ omap (yield parseARMTable)
       (filter (λ raw, abi_is "oabi" raw = false)
          (linesOf fixtureEnv "/arch/arm/tools/syscall.tbl"))
     ++ omap (yield parseARMHeader)
          (linesOf fixtureEnv "/arch/arm/include/uapi/asm/unistd.h").
Proof.
  destruct (excluded_never_in_output (H:=stableSlice) fixtureEnv "/tmp/scratch"
              emptyFS
              {| ArchName := "ARM";
                 Syscalls :=
                   [ {| Num := 1; Name := "exit" |};
                     {| Num := 3; Name := "read" |};
                     {| Num := 403; Name := "clock_gettime64" |};
                     {| Num := 983041; Name := "breakpoint" |};
                     {| Num := 983045; Name := "set_tls" |} ] |}
              (buildARM (H:=stableSlice) fixtureEnv "/tmp/scratch" emptyFS).2)
    as (_ & _ & _ & HARM & _).
  apply HARM. vm_compute. reflexivity.
Defined.

(** C10.  A line that matches the pattern with the name [syscalls] yields
    nothing from the parser of [buildAARCH64], and no pair of AARCH64's final
    list is named [syscalls]. *)
Theorem sentinel_skipped `{SortSlice} :
  (∀ line whole number,
     nrUnistdSycallRegex line = [whole; "syscalls"; number] →
     parseAARCH64 line = Ok None)
  ∧ (∀ env dir fs arch fs',
       buildAARCH64 env dir fs = (Ok arch, fs') →
       ∀ s, s ∈ Syscalls arch → Name s ≠ "syscalls").
Proof.
  split.
  - intros line whole number Hmatch. unfold parseAARCH64. by rewrite Hmatch.
  - intros env dir fs arch fs' Hrun s Hs.
    by destruct (buildAARCH64_names _ _ _ _ _ _ Hrun Hs).
Qed.

Lemma sentinel_skipped_witness :
  parseAARCH64 "#define __NR_syscalls 463" = Ok None
  ∧ ∀ s, s ∈ [ {| Num := 0; Name := "io_setup" |};
               {| Num := 25; Name := "fcntl" |};
               {| Num := 84; Name := "sync_file_range" |} ] →
         Name s ≠ "syscalls".
Proof.
  destruct (sentinel_skipped (H:=stableSlice)) as [Hline Hfinal]. split.
  - by apply (Hline _ "#define __NR_syscalls 463" "463").
  - apply (Hfinal fixtureEnv "/tmp/scratch" emptyFS
             {| ArchName := "AARCH64";
                Syscalls := [ {| Num := 0; Name := "io_setup" |};
                              {| Num := 25; Name := "fcntl" |};
                              {| Num := 84; Name := "sync_file_range" |} ] |}
             (buildAARCH64 (H:=stableSlice) fixtureEnv "/tmp/scratch" emptyFS).2).
    vm_compute. reflexivity.
Defined.

(** ** The header patterns *)

Lemma append_cons (x : ascii) (a b : string) :
  String x a +:+ b = String x (a +:+ b).
Proof. reflexivity. Qed.

Lemma append_nil_l (b : string) : EmptyString +:+ b = b.
Proof. reflexivity. Qed.

Lemma append_assoc (a b c : string) : (a +:+ b) +:+ c = a +:+ b +:+ c.
Proof.
  induction a as [|x a IH]; [done|]. by rewrite !append_cons, IH.
Qed.

Lemma lit_spec p s r : lit p s = Some r ↔ s = p +:+ r.
Proof.
  revert s. induction p as [|a p IH]; intros s; simpl.
  - rewrite append_nil_l. split; [by intros [= ->]|by intros ->].
  - rewrite append_cons. destruct s as [|b s]; [done|].
    destruct (Ascii.eqb a b) eqn:Hab.
    + apply Ascii.eqb_eq in Hab as ->. rewrite IH.
      split; [by intros ->|by intros [= ->]].
    + apply Ascii.eqb_neq in Hab. split; [done|]. by intros [= -> _].
Qed.

Lemma span_spec f s a b :
  span f s = (a, b) →
  s = a +:+ b ∧ all_of f a = true ∧ starts_outside f b = true.
Proof.
  revert a b. induction s as [|c s IH]; simpl; intros a b.
  - by intros [= <- <-].
  - destruct (f c) eqn:Hc.
    + destruct (span f s) as [a' b']. intros [= <- <-].
      destruct (IH a' b' eq_refl) as (-> & Ha & Hb).
      rewrite append_cons. simpl. by rewrite Hc.
    + intros [= <- <-]. rewrite append_nil_l. simpl. by rewrite Hc.
Qed.

Lemma span_complete f a b :
  all_of f a = true → starts_outside f b = true → span f (a +:+ b) = (a, b).
Proof.
  intros Ha Hb. induction a as [|c a IH].
  - rewrite append_nil_l. destruct b as [|c b]; [done|]. simpl in *.
    by destruct (f c).
  - rewrite append_cons. simpl in *.
    apply andb_true_iff in Ha as [-> Ha]. by rewrite IH.
Qed.

Lemma many1_spec f s a b :
  many1 f s = Some (a, b) ↔
  s = a +:+ b ∧ run_of f a ∧ starts_outside f b = true.
Proof.
  unfold many1, run_of. split.
  - destruct (span f s) as [a' b'] eqn:Hspan.
    apply span_spec in Hspan as (-> & Ha & Hb).
    destruct a' as [|c a']; [done|]. by intros [= <- <-].
  - intros (-> & [Hne Ha] & Hb). rewrite span_complete by done.
    by destruct a.
Qed.

Lemma lit_append p r : lit p (p +:+ r) = Some r.
Proof. by apply lit_spec. Qed.

Lemma many1_append f a b :
  run_of f a → starts_outside f b = true → many1 f (a +:+ b) = Some (a, b).
Proof. intros Ha Hb. by apply many1_spec. Qed.

(** What follows a run belongs to no run of the same class when it starts
    with a byte outside of it. *)
Lemma starts_outside_run f g s r :
  run_of g s → (∀ c, g c = true → f c = false) →
  starts_outside f (s +:+ r) = true.
Proof.
  intros [Hne Hs] Hdisj. destruct s as [|c s]; [done|].
  rewrite append_cons. simpl in *.
  apply andb_true_iff in Hs as [Hc _]. by rewrite (Hdisj c Hc).
Qed.

Lemma space_not_name c : is_regex_space c = true → is_name_char c = false.
Proof.
  unfold is_regex_space, is_name_char, is_lower, is_digit.
  generalize (byte c). intros n. rewrite !orb_true_iff, !N.eqb_eq.
  intros Hn. repeat (apply orb_false_iff; split);
    rewrite ?andb_false_iff, ?N.leb_gt, ?N.eqb_neq; lia.
Qed.

Lemma digit_not_space c : is_digit c = true → is_regex_space c = false.
Proof.
  unfold is_regex_space, is_digit.
  generalize (byte c). intros n. rewrite andb_true_iff, !N.leb_le.
  intros Hn. repeat (apply orb_false_iff; split); rewrite N.eqb_neq; lia.
Qed.

(** The search for a match of the ARM pattern finds what the pattern
    describes. *)
Lemma armUnistdSycallRegex_spec line whole syscall number :
  armUnistdSycallRegex line = [whole; syscall; number]
  ↔ matchesARM line whole syscall number.
Proof.
  unfold armUnistdSycallRegex, matchesARM. split.
  - destruct (lit _ line) as [r1|] eqn:H1; [|done].
    destruct (many1 is_name_char r1) as [[n r2]|] eqn:H2; [|done].
    destruct (many1 is_regex_space r2) as [[sp r3]|] eqn:H3; [|done].
    destruct (lit _ r3) as [r4|] eqn:H4; [|done].
    destruct (many1 is_digit r4) as [[d r5]|] eqn:H5; [|done].
    destruct (lit _ r5) as [rest|] eqn:H6; [|done].
    intros [= <- <- <-].
    apply lit_spec in H1, H4, H6.
    apply many1_spec in H2 as (-> & Hn & _), H3 as (-> & Hsp & _),
      H5 as (-> & Hd & _).
    exists sp, rest. subst. by rewrite !append_assoc.
  - intros (sp & rest & -> & -> & Hn & Hsp & Hd).
    rewrite !append_assoc, lit_append.
    rewrite many1_append; [|done|].
    2:{ apply (starts_outside_run _ is_regex_space); [done|].
        apply space_not_name. }
    rewrite many1_append, lit_append by done.
    rewrite many1_append by done.
    by rewrite lit_append.
Qed.

Lemma armUnistdSycallRegex_length line :
  armUnistdSycallRegex line = []
  ∨ ∃ whole syscall number, armUnistdSycallRegex line = [whole; syscall; number].
Proof.
  unfold armUnistdSycallRegex.
  repeat match goal with
         | |- context [match ?x with _ => _ end] =>
           destruct x as [?|]; [|by left]
         | p : (_ * _)%type |- _ => destruct p
         end.
  right. eauto.
Qed.

Lemma nr_tail_spec pre r whole syscall number :
  nr_tail pre r = [whole; syscall; number]
  ↔ ∃ sp rest,
      r = "_" +:+ syscall +:+ sp +:+ number +:+ rest
      ∧ whole = pre +:+ "_" +:+ syscall +:+ sp +:+ number
      ∧ run_of is_name_char syscall ∧ run_of is_regex_space sp
      ∧ run_of is_digit number ∧ starts_outside is_digit rest = true.
Proof.
  unfold nr_tail. split.
  - destruct (lit _ r) as [r1|] eqn:H1; [|done].
    destruct (many1 is_name_char r1) as [[n r2]|] eqn:H2; [|done].
    destruct (many1 is_regex_space r2) as [[sp r3]|] eqn:H3; [|done].
    destruct (many1 is_digit r3) as [[d rest]|] eqn:H4; [|done].
    intros [= <- <- <-].
    apply lit_spec in H1.
    apply many1_spec in H2 as (-> & Hn & _), H3 as (-> & Hsp & _),
      H4 as (-> & Hd & Hrest).
    exists sp, rest. by subst.
  - intros (sp & rest & -> & -> & Hn & Hsp & Hd & Hrest).
    rewrite lit_append.
    rewrite many1_append; [|done|].
    2:{ apply (starts_outside_run _ is_regex_space); [done|].
        apply space_not_name. }
    rewrite many1_append; [|done|].
    2:{ apply (starts_outside_run _ is_digit); [done|].
        apply digit_not_space. }
    by rewrite many1_append.
Qed.

Lemma nr_tail_length pre r :
  nr_tail pre r = []
  ∨ ∃ whole syscall number, nr_tail pre r = [whole; syscall; number].
Proof.
  unfold nr_tail.
  repeat match goal with
         | |- context [match ?x with _ => _ end] =>
           destruct x as [?|]; [|by left]
         | p : (_ * _)%type |- _ => destruct p
         end.
  right. eauto.
Qed.

(** The search for a match of the generic pattern finds what the pattern
    describes. *)
Lemma nrUnistdSycallRegex_spec line whole syscall number :
  nrUnistdSycallRegex line = [whole; syscall; number]
  ↔ matchesNR line whole syscall number.
Proof.
  unfold nrUnistdSycallRegex, matchesNR. split.
  - destruct (lit "#define __NR" line) as [r0|] eqn:H0; [|done].
    apply lit_spec in H0 as ->.
    destruct (lit "3264" r0) as [r1|] eqn:H1.
    + apply lit_spec in H1 as ->.
      destruct (nr_tail_length "#define __NR3264" r1)
        as [Hnone|(w & n & d & Hsome)].
      * rewrite Hnone. by destruct r1.
      * rewrite Hsome. intros [= -> -> ->].
        apply nr_tail_spec in Hsome
          as (sp & rest & -> & -> & Hn & Hsp & Hd & Hrest).
        exists "3264", sp, rest. split; [by right|].
        split; [done|]. split; [|done].
        by rewrite !append_assoc.
    + intros (sp & rest & -> & -> & Hn & Hsp & Hd & Hrest)%nr_tail_spec.
      exists EmptyString, sp, rest. split; [by left|].
      split; [done|]. split; [|done].
      by rewrite !append_assoc.
  - intros (opt & sp & rest & Hopt & -> & -> & Hn & Hsp & Hd & Hrest).
    rewrite !append_assoc, lit_append.
    assert (∀ pre, nr_tail pre ("_" +:+ syscall +:+ sp +:+ number +:+ rest)
                   = [pre +:+ "_" +:+ syscall +:+ sp +:+ number;
                      syscall; number]) as Htail.
    { intros pre. apply nr_tail_spec. by exists sp, rest. }
    destruct Hopt as [-> | ->].
    + rewrite append_nil_l. by rewrite Htail.
    + by rewrite lit_append, Htail.
Qed.

Lemma nrUnistdSycallRegex_length line :
  nrUnistdSycallRegex line = []
  ∨ ∃ whole syscall number, nrUnistdSycallRegex line = [whole; syscall; number].
Proof.
  unfold nrUnistdSycallRegex.
  destruct (lit "#define __NR" line) as [r0|]; [|by left].
  destruct (lit "3264" r0) as [r1|]; [|apply nr_tail_length].
  destruct (nr_tail_length "#define __NR3264" r1) as [->|(w & n & d & ->)].
  - apply nr_tail_length.
  - right. eauto.
Qed.

Lemma digits_val_nonneg s acc v : 0 ≤ acc → digits_val acc s = Some v → 0 ≤ v.
Proof.
  revert acc. induction s as [|c s IH]; simpl; intros acc Hacc.
  - by intros [= <-].
  - destruct (is_digit c) eqn:Hc; [|done]. apply IH.
    unfold is_digit in Hc. apply andb_true_iff in Hc as [Hlo _].
    apply N.leb_le in Hlo. lia.
Qed.

(** The number captured by a pattern has no sign. *)
Lemma Atoi_digits number num :
  run_of is_digit number → Atoi number = Some num → 0 ≤ num.
Proof.
  intros [Hne Hall]. destruct number as [|c r]; [done|]. simpl in Hall.
  apply andb_true_iff in Hall as [Hc _]. unfold Atoi.
  assert (match String c r with
          | String "+" r' => (false, r')
          | String "-" r' => (true, r')
          | _ => (false, String c r)
          end = (false, String c r)) as ->.
  { destruct c as [[] [] [] [] [] [] [] []]; try done; by vm_compute in Hc. }
  simpl is_empty. cbv iota.
  destruct (digits_val 0 (String c r)) as [v|] eqn:Hv; [|done].
  apply digits_val_nonneg in Hv; [|done].
  destruct (_ && _); [|done]. by intros [= <-].
Qed.

Lemma wrap_int_small z : minInt ≤ z ≤ maxInt → wrap_int z = z.
Proof.
  unfold wrap_int, minInt, maxInt. intros Hz.
  rewrite Z.mod_small; lia.
Qed.

(** C2, as the code has it.  The parser of ARM's header yields
    [(num + 0x0f0000, name)], the sum taken in [int], exactly when the line
    matches its pattern and the digits fit an [int]; the parser of AARCH64
    yields [(num, name)] exactly when the line matches its pattern, the digits
    fit an [int], and the name is neither [syscalls] nor [sync_file_range2].
    A line that does not match yields nothing.  A line that matches with digits
    that do not fit an [int] is an error of ARM's parser; of AARCH64's parser
    it is an error when the name is neither [syscalls] nor [sync_file_range2]:
    the name is tested first, and a matching line with one of these two names
    yields nothing whatever its digits.  ARM's final list is a rearrangement
    of the pairs of its table followed by the pairs of its header. *)
Theorem header_parsers_yield `{SortSlice} :
  (∀ line s,
     parseARMHeader line = Ok (Some s) ↔
     ∃ whole syscall number num,
       matchesARM line whole syscall number ∧ Atoi number = Some num
       ∧ s = {| Num := wrap_int (num + 0x0f0000); Name := syscall |})
  ∧ (∀ line whole syscall number num,
       matchesARM line whole syscall number → Atoi number = Some num →
       num + 0x0f0000 ≤ maxInt →
       parseARMHeader line
       = Ok (Some {| Num := num + 0x0f0000; Name := syscall |}))
  ∧ (∀ line s,
       parseAARCH64 line = Ok (Some s) ↔
       ∃ whole syscall number num,
         matchesNR line whole syscall number ∧ Atoi number = Some num
         ∧ syscall ≠ "syscalls" ∧ syscall ≠ "sync_file_range2"
         ∧ s = {| Num := num; Name := syscall |})
  ∧ (∀ line,
       (¬ ∃ whole syscall number, matchesARM line whole syscall number) →
       parseARMHeader line = Ok None)
  ∧ (∀ line,
       (¬ ∃ whole syscall number, matchesNR line whole syscall number) →
       parseAARCH64 line = Ok None)
  ∧ (∀ line whole syscall number,
       Atoi number = None →
       (matchesARM line whole syscall number →
        parseARMHeader line = Err (ErrParseNumber line))
       ∧ (matchesNR line whole syscall number →
          syscall ≠ "syscalls" → syscall ≠ "sync_file_range2" →
          parseAARCH64 line = Err (ErrParseNumber line)))
  ∧ (∀ line whole syscall number,
       matchesNR line whole syscall number →
       syscall = "syscalls" ∨ syscall = "sync_file_range2" →
       parseAARCH64 line = Ok None)
  ∧ (∀ env dir fs arch fs',
       buildARM env dir fs = (Ok arch, fs') →
       Syscalls arch
       ≡ₚ parsed parseARMTable env "/arch/arm/tools/syscall.tbl"
          ++ parsed parseARMHeader env "/arch/arm/include/uapi/asm/unistd.h").
Proof.
  assert (∀ line s,
     parseARMHeader line = Ok (Some s) ↔
     ∃ whole syscall number num,
       matchesARM line whole syscall number ∧ Atoi number = Some num
       ∧ s = {| Num := wrap_int (num + 0x0f0000); Name := syscall |}) as HARM.
  { intros line s. unfold parseARMHeader. split.
    - destruct (armUnistdSycallRegex_length line) as [->|(w & n & d & Hm)];
        [done|].
      rewrite Hm. apply armUnistdSycallRegex_spec in Hm.
      destruct (Atoi d) as [num|] eqn:Hnum; [|done].
      intros [= <-]. by exists w, n, d, num.
    - intros (w & n & d & num & Hm & Hnum & ->).
      apply armUnistdSycallRegex_spec in Hm. by rewrite Hm, Hnum. }
  split; [exact HARM|]. split; [|split; [|split; [|split; [|split; [|split]]]]].
  - intros line whole syscall number num Hm Hnum Hfit.
    apply HARM. exists whole, syscall, number, num.
    split; [done|]. split; [done|].
    destruct Hm as (sp & rest & _ & _ & _ & _ & Hd).
    pose proof (Atoi_digits _ _ Hd Hnum).
    rewrite wrap_int_small; [done|]. unfold minInt. lia.
  - intros line s. unfold parseAARCH64, sentinel, omit. split.
    + destruct (nrUnistdSycallRegex_length line) as [->|(w & n & d & Hm)];
        [done|].
      rewrite Hm. apply nrUnistdSycallRegex_spec in Hm.
      destruct (String.eqb n "syscalls") eqn:Hs; [done|].
      destruct (String.eqb n "sync_file_range2") eqn:Ho; [done|]. simpl.
      destruct (Atoi d) as [num|] eqn:Hnum; [|done].
      intros [= <-]. exists w, n, d, num.
      apply String.eqb_neq in Hs, Ho. done.
    + intros (w & n & d & num & Hm & Hnum & Hs & Ho & ->).
      apply nrUnistdSycallRegex_spec in Hm. rewrite Hm.
      by rewrite (eqb_string_false _ _ Hs), (eqb_string_false _ _ Ho), Hnum.
  - intros line Hno. unfold parseARMHeader.
    destruct (armUnistdSycallRegex_length line) as [->|(w & n & d & Hm)];
      [done|].
    destruct Hno. exists w, n, d. by apply armUnistdSycallRegex_spec.
  - intros line Hno. unfold parseAARCH64.
    destruct (nrUnistdSycallRegex_length line) as [->|(w & n & d & Hm)];
      [done|].
    destruct Hno. exists w, n, d. by apply nrUnistdSycallRegex_spec.
  - intros line whole syscall number Hnum. split.
    + intros Hm%armUnistdSycallRegex_spec. unfold parseARMHeader.
      by rewrite Hm, Hnum.
    + intros Hm%nrUnistdSycallRegex_spec Hs Ho.
      unfold parseAARCH64, sentinel, omit. rewrite Hm.
      by rewrite (eqb_string_false _ _ Hs), (eqb_string_false _ _ Ho), Hnum.
  - intros line whole syscall number Hm%nrUnistdSycallRegex_spec Hskip.
    unfold parseAARCH64, sentinel, omit. rewrite Hm.
    by destruct Hskip as [->| ->].
  - intros env dir fs arch fs' Hrun.
    apply buildARM_ok in Hrun as [-> _]. simpl. apply sort_Slice_perm.
Qed.

Lemma header_parsers_yield_witness :
  parseARMHeader ("#define __ARM_NR_set_tls  (__ARM_NR_BASE+5)")
  = Ok (Some {| Num := 5 + 0x0f0000; Name := "set_tls" |}).
Proof.
  destruct (header_parsers_yield (H:=stableSlice)) as (_ & Hfit & _).
  apply (Hfit _ "#define __ARM_NR_set_tls  (__ARM_NR_BASE+5)" "set_tls" "5" 5).
  - by apply armUnistdSycallRegex_spec.
  - reflexivity.
  - by vm_compute.
Defined.

(** C2 fails as stated: a line that matches the pattern of AARCH64 yields
    nothing when the name it carries is the sentinel. *)
Lemma header_pattern_counterexample :
  matchesNR "#define __NR_syscalls 463" "#define __NR_syscalls 463"
            "syscalls" "463"
  ∧ Atoi "463" = Some 463
  ∧ parseAARCH64 "#define __NR_syscalls 463" = Ok None.
Proof.
  split; [by apply nrUnistdSycallRegex_spec|]. by split.
Qed.

(** The name is tested before the digits are read: the sentinel with twenty
    digits, which [strconv.Atoi] refuses, yields nothing and is no error. *)
Example sentinel_before_Atoi :
  matchesNR "#define __NR_syscalls 99999999999999999999"
            "#define __NR_syscalls 99999999999999999999"
            "syscalls" "99999999999999999999"
  ∧ Atoi "99999999999999999999" = None
  ∧ parseAARCH64 "#define __NR_syscalls 99999999999999999999" = Ok None.
Proof.
  split; [by apply nrUnistdSycallRegex_spec|]. by split.
Qed.

(** ** [downloadFile] *)

(** C7.  [downloadFile] fails with a network error when the request fails or
    the status is not 200, leaving the disk as it was; it fails with an I/O
    error when the scratch file cannot be created or the copy into it fails;
    it returns the path of the scratch file, which then holds the body, exactly
    when the request succeeded with status 200, the file was created and the
    copy completed. *)
Theorem downloadFile_outcomes env url dir fs :
  let name := Join dir (Base url) in
  (http_Get env url = None → downloadFile env url dir fs = (Err ErrHttpGet, fs))
  ∧ (∀ resp, http_Get env url = Some resp → StatusCode resp ≠ StatusOK →
       ∃ e, downloadFile env url dir fs = (Err e, fs)
            ∧ kind_of e = NetworkError)
  ∧ (∀ resp, http_Get env url = Some resp → StatusCode resp = StatusOK →
       create_ok env name = false ∨ write_fail env name ≠ None →
       ∃ e, (downloadFile env url dir fs).1 = Err e ∧ kind_of e = IOError)
  ∧ (∀ resp, http_Get env url = Some resp → StatusCode resp = StatusOK →
       create_ok env name = true → write_fail env name = None →
       downloadFile env url dir fs = (Ok name, put_file name (Body resp) fs))
  ∧ (∀ path fs', downloadFile env url dir fs = (Ok path, fs') →
       ∃ resp, http_Get env url = Some resp ∧ StatusCode resp = StatusOK
               ∧ path = name ∧ create_ok env name = true
               ∧ write_fail env name = None
               ∧ os_Open path fs' = Some (Body resp)).
Proof.
  intros name. unfold downloadFile. fold name.
  split; [by intros ->|]. split; [|split; [|split]].
  - intros resp -> Hst. apply Z.eqb_neq in Hst. rewrite Hst. simpl. eauto.
  - intros resp -> Hst%Z.eqb_eq Hio. rewrite Hst. simpl.
    destruct (create_ok env name); simpl; [|eauto].
    destruct (write_fail env name); simpl; [eauto|].
    by destruct Hio.
  - intros resp -> Hst%Z.eqb_eq Hcr Hwr. by rewrite Hst, Hcr, Hwr.
  - intros path fs' Hdl.
    apply downloadFile_ok in Hdl as (resp & Hget & Hst & -> & Hcr & Hwr & ->).
    exists resp. by rewrite os_Open_put_file.
Qed.

Lemma downloadFile_outcomes_witness :
  (∃ e, downloadFile env404
          (baseURL +:+ "v6.13" +:+ "/arch/arm/tools/syscall.tbl")
          "/tmp/mk_linux_syscalls123" emptyFS = (Err e, emptyFS)
        ∧ kind_of e = NetworkError)
  ∧ downloadFile fixtureEnv
      (baseURL +:+ "v6.13" +:+ "/arch/arm/tools/syscall.tbl")
      "/tmp/mk_linux_syscalls123" emptyFS
    = (Ok "/tmp/mk_linux_syscalls123/syscall.tbl",
       put_file "/tmp/mk_linux_syscalls123/syscall.tbl" fixtureARMTable emptyFS).
Proof.
  split.
  - destruct (downloadFile_outcomes env404
                (baseURL +:+ "v6.13" +:+ "/arch/arm/tools/syscall.tbl")
                "/tmp/mk_linux_syscalls123" emptyFS) as (_ & Hstatus & _).
    apply (Hstatus {| StatusCode := 404; Body := fixtureARMTable |});
      [reflexivity|done].
  - destruct (downloadFile_outcomes fixtureEnv
                (baseURL +:+ "v6.13" +:+ "/arch/arm/tools/syscall.tbl")
                "/tmp/mk_linux_syscalls123" emptyFS) as (_ & _ & _ & Hok & _).
    apply (Hok {| StatusCode := 200; Body := fixtureARMTable |}); reflexivity.
Defined.

(** ** Runs of [readSyscalls], of the builders and of [main] *)

Lemma readSyscalls_downloaded env path dir parse fs name fs' :
  downloadFile env (baseURL +:+ linuxVersion env +:+ path) dir fs
  = (Ok name, fs') →
  readSyscalls env path dir parse fs
  = (scanSyscalls parse (fetched env path), fs').
Proof.
  intros Hdl. unfold readSyscalls, fetched. rewrite Hdl.
  apply downloadFile_ok in Hdl as (resp & -> & _ & _ & _ & _ & ->).
  by rewrite os_Open_put_file.
Qed.

Lemma readSyscalls_dirs env path dir parse fs :
  dirs (readSyscalls env path dir parse fs).2 = dirs fs.
Proof.
  unfold readSyscalls, downloadFile.
  destruct (http_Get env _) as [resp|]; [|done].
  destruct (StatusCode resp =? StatusOK); simpl; [|done].
  destruct (create_ok env _); simpl; [|done].
  destruct (write_fail env _); simpl.
  - done.
  - by rewrite os_Open_put_file.
Qed.

Lemma readSyscalls_clean env path dir parse fs l fs' :
  readSyscalls env path dir parse fs = ((l, None), fs') →
  Forall (λ raw, ¬ bad_line parse raw) (linesOf env path).
Proof.
  intros (_ & Hscan & _)%readSyscalls_ok.
  apply scanSyscalls_ok in Hscan as (_ & _ & Hall).
  eapply Forall_impl; [exact Hall|]. unfold bad_line. intros raw ->. done.
Qed.

(** A line on which the parser fails makes [scanSyscalls] return the nil
    slice with the error of the parser. *)
Lemma scanSyscalls_bad_line parse content :
  Exists (bad_line parse) (Scanner content).1 →
  ∃ e raw, scanSyscalls parse content = ([], Some e)
           ∧ raw ∈ (Scanner content).1 ∧ parse (TrimSpace raw) = Err e.
Proof.
  unfold scanSyscalls. destruct (Scanner content) as [lines scanErr]. simpl.
  intros Hbad.
  destruct (scan_loop_err parse lines [] Hbad) as (e & raw & -> & Hin & Hraw).
  by exists e, raw.
Qed.

Section Runs.
Context `{SortSlice}.

Lemma builders_keep_dirs b env dir fs :
  b ∈ builders → dirs (b env dir fs).2 = dirs fs.
Proof.
  unfold builders. rewrite !elem_of_cons, elem_of_nil.
  intros [->|[->|[->|[->|[->|[]]]]]].
  - unfold buildARM.
    pose proof (readSyscalls_dirs env "/arch/arm/tools/syscall.tbl" dir
                  parseARMTable fs) as Ha.
    destruct (readSyscalls env _ dir parseARMTable fs) as [[la [e|]] fs1];
      [done|]. simpl in Ha.
    pose proof (readSyscalls_dirs env "/arch/arm/include/uapi/asm/unistd.h" dir
                  parseARMHeader fs1) as Hb.
    destruct (readSyscalls env _ dir parseARMHeader fs1) as [[lb [e|]] fs2];
      simpl in *; congruence.
  - unfold buildAARCH64.
    pose proof (readSyscalls_dirs env "/include/uapi/asm-generic/unistd.h" dir
                  parseAARCH64 fs) as Ha.
    by destruct (readSyscalls env _ dir parseAARCH64 fs) as [[la [e|]] fs1].
  - unfold build386.
    pose proof (readSyscalls_dirs env "/arch/x86/entry/syscalls/syscall_32.tbl"
                  dir parse386 fs) as Ha.
    by destruct (readSyscalls env _ dir parse386 fs) as [[la [e|]] fs1].
  - unfold buildX32.
    pose proof (readSyscalls_dirs env "/arch/x86/entry/syscalls/syscall_64.tbl"
                  dir parseX32 fs) as Ha.
    by destruct (readSyscalls env _ dir parseX32 fs) as [[la [e|]] fs1].
  - unfold buildX86_64.
    pose proof (readSyscalls_dirs env "/arch/x86/entry/syscalls/syscall_64.tbl"
                  dir parseX86_64 fs) as Ha.
    by destruct (readSyscalls env _ dir parseX86_64 fs) as [[la [e|]] fs1].
Qed.

Lemma run_builders_dirs env bs tmp arches fs :
  (∀ b, b ∈ bs → b ∈ builders) →
  dirs (run_builders env bs tmp arches fs).2 = dirs fs.
Proof.
  revert arches fs. induction bs as [|b bs IH]; intros arches fs Hbs; [done|].
  simpl. pose proof (builders_keep_dirs b env tmp fs (Hbs b ltac:(by left))) as Hb.
  destruct (b env tmp fs) as [[arch|e] fs1]; simpl in *; [|done].
  rewrite IH; [done|]. intros b' Hb'. apply Hbs. by right.
Qed.

Ltac one_file parse :=
  match goal with
  | |- context [readSyscalls ?env ?path ?dir parse ?fs] =>
    let Hread := fresh "Hread" in
    let Hclean := fresh "Hclean" in
    destruct (readSyscalls env path dir parse fs) as [[? [?|]] ?] eqn:Hread;
    [done|];
    pose proof (readSyscalls_clean _ _ _ _ _ _ _ Hread) as Hclean;
    apply readSyscalls_ok in Hread as (-> & _ & _)
  end.

(** When every builder succeeds, the architectures are those of [archesOf]
    and no parser failed on a line of its file. *)
Lemma run_builders_ok env tmp fs arches fs' :
  run_builders env builders tmp [] fs = (Ok arches, fs') →
  arches = archesOf env
  ∧ ∀ parse path, (parse, path) ∈ source_files →
                  Forall (λ raw, ¬ bad_line parse raw) (linesOf env path).
Proof.
  unfold builders, run_builders.
  unfold buildARM. one_file parseARMTable. one_file parseARMHeader.
  unfold buildAARCH64. one_file parseAARCH64.
  unfold build386. one_file parse386.
  unfold buildX32. one_file parseX32.
  unfold buildX86_64. one_file parseX86_64.
  intros [= <- <-]. split; [done|].
  intros parse path. unfold source_files.
  rewrite !elem_of_cons, elem_of_nil.
  intros [Hp|[Hp|[Hp|[Hp|[Hp|[Hp|[]]]]]]]; by injection Hp as -> ->.
Qed.
End Runs.

Lemma Forall_Exists_absurd {A : Type} (P : A → Prop) (l : list A) :
  Forall (λ x, ¬ P x) l → Exists P l → False.
Proof.
  intros Hall Hex. apply Exists_exists in Hex as (x & Hin & Hx).
  rewrite Forall_forall in Hall. by apply (Hall x).
Qed.

(** C6, as the code has it.  A line that is neither empty nor a comment is
    an error of the table parsers when it has fewer than three fields, and
    when its first field is no integer, unless the parser skips the line for
    its ABI field before it looks at the number.  When the parser fails on a
    line of the file, [readSyscalls] returns the nil slice with that error,
    and [main] ends with status 1 having written nothing to the output file. *)
Theorem parse_failures_fatal `{SortSlice} :
  (∀ line,
     len_is_zero line = false → HasPrefix line "#" = false →
     (length (Fields line) < 3)%nat →
     parseARMTable line = Err (ErrUnexpectedLine line)
     ∧ parse386 line = Err (ErrUnexpectedLine line)
     ∧ parseX32 line = Err (ErrUnexpectedLine line)
     ∧ parseX86_64 line = Err (ErrUnexpectedLine line))
  ∧ (∀ line f0 f1 f2 rest,
       len_is_zero line = false → HasPrefix line "#" = false →
       Fields line = f0 :: f1 :: f2 :: rest → Atoi f0 = None →
       (f1 ≠ "oabi" → parseARMTable line = Err (ErrParseNumber line))
       ∧ parse386 line = Err (ErrParseNumber line)
       ∧ (f1 ≠ "x64" → parseX32 line = Err (ErrParseNumber line))
       ∧ (f1 ≠ "x32" → parseX86_64 line = Err (ErrParseNumber line)))
  ∧ (∀ env path dir parse fs name fs',
       downloadFile env (baseURL +:+ linuxVersion env +:+ path) dir fs
       = (Ok name, fs') →
       Exists (bad_line parse) (linesOf env path) →
       ∃ e raw, readSyscalls env path dir parse fs = (([], Some e), fs')
                ∧ raw ∈ linesOf env path ∧ parse (TrimSpace raw) = Err e)
  ∧ (∀ env fs parse path,
       (parse, path) ∈ source_files →
       Exists (bad_line parse) (linesOf env path) →
       exit_status (main env fs) = 1
       ∧ is_Some (logged (main env fs))
       ∧ output (main env fs) = None).
Proof.
  split; [|split; [|split]].
  - intros line Hlen Hpre Hfew.
    unfold parseARMTable, parse386, parseX32, parseX86_64.
    rewrite Hlen, Hpre. simpl.
    destruct (Fields line) as [|f0 [|f1 [|f2 rest]]]; try done.
    simpl in Hfew. lia.
  - intros line f0 f1 f2 rest Hlen Hpre Hfields Hnum.
    unfold parseARMTable, parse386, parseX32, parseX86_64.
    rewrite Hlen, Hpre, Hfields, Hnum. simpl.
    split; [|split; [done|split]];
      intros Hne; by rewrite (eqb_string_false _ _ Hne).
  - intros env path dir parse fs name fs' Hdl Hbad.
    rewrite (readSyscalls_downloaded _ _ _ _ _ _ _ Hdl).
    destruct (scanSyscalls_bad_line parse (fetched env path) Hbad)
      as (e & raw & -> & Hin & Hraw).
    by exists e, raw.
  - intros env fs parse path Hfile Hbad. unfold main.
    destruct (TempDir env) as [tmp|]; [|done].
    destruct (run_builders env builders tmp [] (Mkdir tmp fs))
      as [[arches|e] fs1] eqn:Hrun; [|done].
    apply run_builders_ok in Hrun as [_ Hclean].
    destruct (Forall_Exists_absurd _ _ (Hclean parse path Hfile) Hbad).
Qed.

Lemma parse_failures_fatal_witness :
  exit_status (main (H:=stableSlice) envShort emptyFS) = 1
  ∧ is_Some (logged (main (H:=stableSlice) envShort emptyFS))
  ∧ output (main (H:=stableSlice) envShort emptyFS) = None.
Proof.
  destruct (parse_failures_fatal (H:=stableSlice)) as (_ & _ & _ & Hmain).
  apply (Hmain envShort emptyFS parse386
           "/arch/x86/entry/syscalls/syscall_32.tbl").
  - unfold source_files. do 3 right. left.
  - apply Exists_exists. exists "2 i386". split; [|reflexivity].
    vm_compute. right. left.
Defined.

(** C6 fails as stated: ARM's parser skips a line of the OABI before it
    looks at the number, so a first field that is no integer is no error
    there. *)
Lemma parse_error_counterexample :
  len_is_zero "abc oabi waitpid" = false
  ∧ HasPrefix "abc oabi waitpid" "#" = false
  ∧ Fields "abc oabi waitpid" = ["abc"; "oabi"; "waitpid"]
  ∧ Atoi "abc" = None
  ∧ parseARMTable "abc oabi waitpid" = Ok None.
Proof. by repeat split. Qed.

(** ** The output is a function of the fetched texts and the version *)

Lemma fetched_ext env1 env2 path :
  linuxVersion env1 = linuxVersion env2 →
  (∀ url, http_Get env1 url = http_Get env2 url) →
  fetched env1 path = fetched env2 path.
Proof. intros Hv Hget. unfold fetched. by rewrite Hv, Hget. Qed.

Lemma archesOf_ext `{SortSlice} env1 env2 :
  linuxVersion env1 = linuxVersion env2 →
  (∀ url, http_Get env1 url = http_Get env2 url) →
  archesOf env1 = archesOf env2.
Proof.
  intros Hv Hget.
  unfold archesOf, parsedARM, parsedAARCH64, parsed386, parsedX32,
    parsedX86_64, parsed.
  by rewrite !(fetched_ext env1 env2 _ Hv Hget).
Qed.

(** A run that ends with status 0 has written the template executed on the
    architectures of [archesOf]. *)
Lemma main_success `{SortSlice} env fs :
  exit_status (main env fs) = 0 →
  output (main env fs) = Some (Execute (paramsOf env)).
Proof.
  unfold main, paramsOf.
  destruct (TempDir env) as [tmp|]; [|done].
  destruct (run_builders env builders tmp [] (Mkdir tmp fs))
    as [[arches|e] fs1] eqn:Hrun; [|done].
  apply run_builders_ok in Hrun as [-> _].
  destruct (create_ok env (outputFile env)); [|done]. simpl.
  by destruct (write_fail env (outputFile env)).
Qed.

(** C8.  Two runs that are given the same version tag and the same answers
    to their requests, and that both end with status 0, write the same bytes
    to their output files, whatever their scratch directories, their output
    paths and the disks they start from. *)
Theorem output_deterministic `{SortSlice} env1 env2 fs1 fs2 :
  linuxVersion env1 = linuxVersion env2 →
  (∀ url, http_Get env1 url = http_Get env2 url) →
  exit_status (main env1 fs1) = 0 →
  exit_status (main env2 fs2) = 0 →
  output (main env1 fs1) = Some (Execute (paramsOf env1))
  ∧ output (main env2 fs2) = output (main env1 fs1).
Proof.
  intros Hv Hget H1 H2.
  rewrite (main_success env1 fs1 H1), (main_success env2 fs2 H2).
  split; [done|]. unfold paramsOf.
  by rewrite Hv, (archesOf_ext env1 env2 Hv Hget).
Qed.

Lemma output_deterministic_witness :
  output (main (H:=stableSlice) fixtureEnv emptyFS)
  = Some (Execute (paramsOf (H:=stableSlice) fixtureEnv))
  ∧ output (main (H:=stableSlice) fixtureEnvElsewhere staleFS)
    = output (main (H:=stableSlice) fixtureEnv emptyFS).
Proof.
  apply (output_deterministic (H:=stableSlice) fixtureEnv fixtureEnvElsewhere
           emptyFS staleFS).
  - reflexivity.
  - reflexivity.
  - by vm_compute.
  - by vm_compute.
Defined.

(** ** The scratch directory *)

(** C9, where the code falls short of it.  When [main] returns, the scratch
    directory is gone; when [main] ends through [log.Fatal] after it made the
    directory, the deferred [os.RemoveAll] has not run and the directory is
    still there. *)
Theorem scratch_dir_kept_on_failure `{SortSlice} env fs tmp :
  TempDir env = Some tmp →
  (exit_status (main env fs) = 0 → Clean tmp ∉ dirs (disk (main env fs)))
  ∧ (exit_status (main env fs) ≠ 0 → Clean tmp ∈ dirs (disk (main env fs))).
Proof.
  intros Htmp. unfold main. rewrite Htmp.
  pose proof (run_builders_dirs env builders tmp [] (Mkdir tmp fs)
                (λ b Hb, Hb)) as Hdirs.
  destruct (run_builders env builders tmp [] (Mkdir tmp fs))
    as [[arches|e] fs1]; simpl in Hdirs.
  - destruct (create_ok env (outputFile env)); simpl.
    + destruct (write_fail env (outputFile env)); simpl.
      * split; [done|]. intros _. rewrite Hdirs.
        apply elem_of_union_l. by apply elem_of_singleton.
      * split; [|done]. intros _.
        rewrite elem_of_filter. intros [Hunder _].
        unfold under in Hunder. by rewrite String.eqb_refl in Hunder.
    + split; [done|]. intros _. rewrite Hdirs.
      apply elem_of_union_l. by apply elem_of_singleton.
  - simpl. split; [done|]. intros _. rewrite Hdirs.
    apply elem_of_union_l. by apply elem_of_singleton.
Qed.

Lemma scratch_dir_kept_on_failure_witness :
  exit_status (main (H:=stableSlice) env404 emptyFS) = 1
  ∧ logged (main (H:=stableSlice) env404 emptyFS) = Some (ErrHttpStatus 404)
  ∧ "/tmp/mk_linux_syscalls123"
    ∈ dirs (disk (main (H:=stableSlice) env404 emptyFS)).
Proof.
  split; [by vm_compute|]. split; [by vm_compute|].
  apply (scratch_dir_kept_on_failure (H:=stableSlice) env404 emptyFS
           "/tmp/mk_linux_syscalls123"); [reflexivity|].
  by vm_compute.
Defined.

(** The same run when every download is answered: the directory is removed
    and the scratch files with it. *)
Example scratch_dir_removed_on_success :
  let o := main (H:=stableSlice) fixtureEnv emptyFS in
  exit_status o = 0 ∧ elements (dirs (disk o)) = []
  ∧ (map fst (map_to_list (files (disk o)))) = ["zsyscalls.go"].
Proof. by vm_compute. Qed.

(** * Further properties *)

Lemma all_parse_spec parse lines :
  all_parse parse lines = true ↔ Forall (λ raw, ¬ bad_line parse raw) lines.
Proof.
  unfold all_parse, bad_line. rewrite forallb_forall, Forall_forall.
  split; intros Hall raw Hin.
  - specialize (Hall raw (proj1 (list_elem_of_In _ _) Hin)).
    by destruct (is_Err (parse (TrimSpace raw))).
  - specialize (Hall raw (proj2 (list_elem_of_In _ _) Hin)).
    by destruct (is_Err (parse (TrimSpace raw))).
Qed.


Lemma scanSyscalls_complete parse content :
  Forall (λ raw, ¬ bad_line parse raw) (Scanner content).1 →
  scanSyscalls parse content
  = (omap (yield parse) (Scanner content).1, (Scanner content).2).
Proof.
  unfold scanSyscalls. destruct (Scanner content) as [lines scanErr]. simpl.
  intros Hall. rewrite scan_loop_complete; [done|].
  eapply Forall_impl; [exact Hall|]. unfold bad_line. intros raw Hraw.
  by destruct (is_Err (parse (TrimSpace raw))).
Qed.

(** X1.  [readSyscalls] returns a list without an error exactly when the
    file is served with status 200, its scratch copy is created and written,
    every line fits the buffer of the Scanner and the parser fails on none;
    the list then holds what the lines yield, in the order of the file, and
    the scratch copy holds the body. *)
Theorem readSyscalls_succeeds env path dir parse fs l fs' :
  readSyscalls env path dir parse fs = ((l, None), fs')
  ↔ ∃ resp,
      http_Get env (baseURL +:+ linuxVersion env +:+ path) = Some resp
      ∧ StatusCode resp = StatusOK
      ∧ create_ok env (Join dir (Base (baseURL +:+ linuxVersion env +:+ path)))
        = true
      ∧ write_fail env (Join dir (Base (baseURL +:+ linuxVersion env +:+ path)))
        = None
      ∧ (Scanner (Body resp)).2 = None
      ∧ Forall (λ raw, ¬ bad_line parse raw) (Scanner (Body resp)).1
      ∧ l = omap (yield parse) (Scanner (Body resp)).1
      ∧ fs' = put_file (Join dir (Base (baseURL +:+ linuxVersion env +:+ path)))
                (Body resp) fs.
Proof.
  split.
  - unfold readSyscalls.
    destruct (downloadFile env _ dir fs) as [[name|e] fs1] eqn:Hdl; [|done].
    apply downloadFile_ok in Hdl as (resp & Hget & Hst & -> & Hcr & Hwr & ->).
    rewrite os_Open_put_file. intros [= Hscan <-].
    apply scanSyscalls_ok in Hscan as (-> & Herr & Hall).
    exists resp. repeat split; try done.
    eapply Forall_impl; [exact Hall|]. unfold bad_line. by intros raw ->.
  - intros (resp & Hget & Hst & Hcr & Hwr & Herr & Hall & -> & ->).
    unfold readSyscalls, downloadFile. rewrite Hget.
    apply Z.eqb_eq in Hst. rewrite Hst. simpl. rewrite Hcr, Hwr. simpl.
    rewrite os_Open_put_file, scanSyscalls_complete by done.
    by rewrite Herr.
Qed.



Lemma readSyscalls_succeeds_witness :
  readSyscalls fixtureEnv "/arch/x86/entry/syscalls/syscall_32.tbl"
    "/tmp/scratch" parse386 emptyFS
  = (([ {| Num := 1; Name := "exit" |};
        {| Num := 0; Name := "restart_syscall" |} ], None),
     put_file "/tmp/scratch/syscall_32.tbl" fixture386 emptyFS).
Proof.
  apply readSyscalls_succeeds.
  exists {| StatusCode := 200; Body := fixture386 |}.
  repeat split; try reflexivity.
  apply all_parse_spec. by vm_compute.
Defined.

(** X2.  The one case in which [readSyscalls] returns pairs together with
    an error: the Scanner stopped with [ErrTooLong], and the pairs are those
    of the lines before the line that did not fit. *)
Theorem readSyscalls_partial env path dir parse fs l e :
  (readSyscalls env path dir parse fs).1 = (l, Some e) →
  l ≠ [] →
  e = ErrTooLong
  ∧ (Scanner (fetched env path)).2 = Some ErrTooLong
  ∧ l = omap (yield parse) (linesOf env path).
Proof.
  unfold readSyscalls, linesOf, fetched.
  destruct (downloadFile env _ dir fs) as [[name|e'] fs1] eqn:Hdl;
    [|by intros [= <- _]].
  apply downloadFile_ok in Hdl as (resp & -> & _ & _ & _ & _ & ->).
  rewrite os_Open_put_file. unfold scanSyscalls.
  destruct (Scanner (Body resp)) as [lines scanErr] eqn:Hscan. simpl.
  destruct (scan_loop parse lines []) as [syscalls|e'] eqn:Hloop;
    [|by intros [= <- _]].
  intros [= <- ->] _. apply scan_loop_ok in Hloop as [-> _].
  assert (∀ raw ls err, scan_tokens raw = (ls, Some err) → err = ErrTooLong)
    as Htok.
  { induction raw as [|r raw IH]; simpl; intros ls err; [done|].
    destruct (_ <=? _)%N; [by intros [= _ <-]|].
    destruct (scan_tokens raw) as [ls' e']. intros [= _ ->]. by eapply IH. }
  unfold Scanner in Hscan. by rewrite (Htok _ _ _ Hscan).
Qed.

Lemma readSyscalls_partial_witness :
  ErrTooLong = ErrTooLong
  ∧ (Scanner (fetched envLong "/arch/x86/entry/syscalls/syscall_32.tbl")).2
    = Some ErrTooLong
  ∧ [ {| Num := 1; Name := "exit" |} ]
    = omap (yield parse386)
        (linesOf envLong "/arch/x86/entry/syscalls/syscall_32.tbl").
Proof.
  apply (readSyscalls_partial envLong "/arch/x86/entry/syscalls/syscall_32.tbl"
           "/tmp/scratch" parse386 emptyFS).
  - by vm_compute.
  - discriminate.
Defined.

(** ** When a run succeeds *)


Lemma read_file_ok env dir parse path fs l fs' :
  readSyscalls env path dir parse fs = ((l, None), fs') →
  file_ok env dir parse path.
Proof.
  unfold readSyscalls.
  destruct (downloadFile env _ dir fs) as [[name|e] fs1] eqn:Hdl; [|done].
  apply downloadFile_ok in Hdl as (resp & Hget & Hst & -> & Hcr & Hwr & ->).
  rewrite os_Open_put_file. intros [= Hscan <-].
  apply scanSyscalls_ok in Hscan as (-> & Herr & Hall).
  exists resp. repeat split; try done.
  eapply Forall_impl; [exact Hall|]. unfold bad_line. by intros raw ->.
Qed.

Section Success.
Context `{SortSlice}.

Ltac read_one parse :=
  match goal with
  | |- context [readSyscalls ?env ?path ?dir parse ?fs] =>
    let Hread := fresh "Hread" in
    let Hfile := fresh "Hfile" in
    destruct (readSyscalls env path dir parse fs) as [[? [?|]] ?] eqn:Hread;
    [done|];
    pose proof (read_file_ok _ _ _ _ _ _ _ Hread) as Hfile;
    clear Hread
  end.

Lemma run_builders_files_ok env tmp fs arches fs' :
  run_builders env builders tmp [] fs = (Ok arches, fs') → files_ok env tmp.
Proof.
  unfold builders, run_builders.
  unfold buildARM. read_one parseARMTable. read_one parseARMHeader.
  unfold buildAARCH64. read_one parseAARCH64.
  unfold build386. read_one parse386.
  unfold buildX32. read_one parseX32.
  unfold buildX86_64. read_one parseX86_64.
  intros _ parse path. unfold source_files.
  rewrite !elem_of_cons, elem_of_nil.
  intros [Hp|[Hp|[Hp|[Hp|[Hp|[Hp|[]]]]]]]; by injection Hp as -> ->.
Qed.

End Success.

Lemma scan_tokens_long raw :
  existsb (λ l, (MaxScanTokenSize <=? N.of_nat (String.length l))%N) raw = true →
  (scan_tokens raw).2 = Some ErrTooLong.
Proof.
  induction raw as [|l raw IH]; simpl; [done|].
  destruct (_ <=? _)%N; simpl; [done|].
  intros Hlong. specialize (IH Hlong).
  by destruct (scan_tokens raw) as [ls e].
Qed.




(** X3.  A line of 65536 bytes or more in any of the fetched files ends
    the run with status 1 and nothing written to the output file: the
    builders drop the pairs that [readSyscalls] returned with the error. *)
Theorem long_line_fatal `{SortSlice} env fs parse path :
  (parse, path) ∈ source_files →
  has_long_line (fetched env path) = true →
  exit_status (main env fs) = 1
  ∧ is_Some (logged (main env fs))
  ∧ output (main env fs) = None.
Proof.
  intros Hfile Hlong. unfold main.
  destruct (TempDir env) as [tmp|]; [|done].
  destruct (run_builders env builders tmp [] (Mkdir tmp fs))
    as [[arches|e] fs1] eqn:Hrun; [|done].
  apply run_builders_files_ok in Hrun.
  destruct (Hrun parse path Hfile) as (resp & Hget & _ & _ & _ & Herr & _).
  unfold has_long_line, fetched in Hlong. rewrite Hget in Hlong.
  apply scan_tokens_long in Hlong. unfold Scanner in Herr.
  by rewrite Herr in Hlong.
Qed.

Lemma long_line_fatal_witness :
  exit_status (main (H:=stableSlice) envLong emptyFS) = 1
  ∧ is_Some (logged (main (H:=stableSlice) envLong emptyFS))
  ∧ output (main (H:=stableSlice) envLong emptyFS) = None.
Proof.
  apply (long_line_fatal (H:=stableSlice) envLong emptyFS parse386
           "/arch/x86/entry/syscalls/syscall_32.tbl").
  - unfold source_files. do 3 right. left.
  - by vm_compute.
Defined.

(** X5.  After a run that ends with status 0 the output file holds the
    generated text, unless its path lies in the scratch directory: then the
    deferred [os.RemoveAll] has removed it with the directory. *)
Theorem output_file_on_disk `{SortSlice} env fs tmp :
  TempDir env = Some tmp →
  exit_status (main env fs) = 0 →
  os_Open (outputFile env) (disk (main env fs))
  = if under (Clean tmp) (Clean (outputFile env)) then None
    else Some (Execute (paramsOf env)).
Proof.
  intros Htmp. unfold main, paramsOf. rewrite Htmp.
  destruct (run_builders env builders tmp [] (Mkdir tmp fs))
    as [[arches|e] fs1] eqn:Hrun; [|done].
  apply run_builders_ok in Hrun as [-> _].
  destruct (create_ok env (outputFile env)); [|done]. simpl.
  destruct (write_fail env (outputFile env)); [done|]. simpl. intros _.
  unfold os_Open, RemoveAll, put_file. simpl.
  destruct (under (Clean tmp) (Clean (outputFile env))) eqn:Hunder.
  - apply map_lookup_filter_None. right. intros text _. simpl.
    by rewrite Hunder.
  - apply map_lookup_filter_Some. split; [|done].
    apply lookup_insert_eq.
Qed.

Lemma output_file_on_disk_witness :
  os_Open "zsyscalls.go" (disk (main (H:=stableSlice) fixtureEnv homeFS))
  = Some (Execute (paramsOf (H:=stableSlice) fixtureEnv))
  ∧ os_Open "/tmp/mk_linux_syscalls123/zsyscalls.go"
      (disk (main (H:=stableSlice) envOutInside homeFS)) = None.
Proof.
  split.
  - apply (output_file_on_disk (H:=stableSlice) fixtureEnv homeFS
             "/tmp/mk_linux_syscalls123"); [reflexivity|by vm_compute].
  - apply (output_file_on_disk (H:=stableSlice) envOutInside homeFS
             "/tmp/mk_linux_syscalls123"); [reflexivity|by vm_compute].
Defined.

(** ** What a run leaves alone *)

Lemma readSyscalls_frame env path dir parse fs k :
  k ≠ Clean (Join dir (Base (baseURL +:+ linuxVersion env +:+ path))) →
  files (readSyscalls env path dir parse fs).2 !! k = files fs !! k.
Proof.
  intros Hk. unfold readSyscalls, downloadFile.
  destruct (http_Get env _) as [resp|]; [|done].
  destruct (StatusCode resp =? StatusOK); simpl; [|done].
  destruct (create_ok env _); simpl; [|done].
  destruct (write_fail env _); simpl.
  - by apply lookup_insert_ne.
  - rewrite os_Open_put_file. simpl. by apply lookup_insert_ne.
Qed.

Section Frame.
Context `{SortSlice}.

Lemma scratch_key_ne env dir parse path k :
  (parse, path) ∈ source_files → k ∉ scratch_keys env dir →
  k ≠ Clean (Join dir (Base (baseURL +:+ linuxVersion env +:+ path))).
Proof.
  intros Hin Hk ->. apply Hk. unfold scratch_keys.
  apply list_elem_of_In, in_map_iff. exists (parse, path).
  split; [done|]. by apply list_elem_of_In.
Qed.

Lemma builders_frame b env dir fs k :
  b ∈ builders → k ∉ scratch_keys env dir →
  files (b env dir fs).2 !! k = files fs !! k.
Proof.
  unfold builders. rewrite !elem_of_cons, !elem_of_nil.
  intros Hb Hk.
  assert (∀ parse path fs0, (parse, path) ∈ source_files →
            files (readSyscalls env path dir parse fs0).2 !! k = files fs0 !! k)
    as Hread.
  { intros parse path fs0 Hin.
    by apply readSyscalls_frame, (scratch_key_ne env dir parse path). }
  assert (∀ file, In file source_files → file ∈ source_files) as Hin
    by (intros file; apply list_elem_of_In).
  assert (∀ parse path fs0, In (parse, path) source_files →
            files (readSyscalls env path dir parse fs0).2 !! k = files fs0 !! k)
    as Hstep by (intros parse path fs0 Hfile; by apply Hread, Hin).
  destruct Hb as [->|[->|[->|[->|[->|[]]]]]].
  - unfold buildARM.
    pose proof (Hstep parseARMTable "/arch/arm/tools/syscall.tbl" fs
                  ltac:(simpl; tauto)) as Ha.
    destruct (readSyscalls env _ dir parseARMTable fs) as [[la [e|]] fs1];
      simpl in Ha |- *; [done|].
    pose proof (Hstep parseARMHeader "/arch/arm/include/uapi/asm/unistd.h" fs1
                  ltac:(simpl; tauto)) as Hb.
    destruct (readSyscalls env _ dir parseARMHeader fs1) as [[lb [e|]] fs2];
      simpl in Hb |- *; congruence.
  - unfold buildAARCH64.
    pose proof (Hstep parseAARCH64 "/include/uapi/asm-generic/unistd.h" fs
                  ltac:(simpl; tauto)) as Ha.
    by destruct (readSyscalls env _ dir parseAARCH64 fs) as [[la [e|]] fs1].
  - unfold build386.
    pose proof (Hstep parse386 "/arch/x86/entry/syscalls/syscall_32.tbl" fs
                  ltac:(simpl; tauto)) as Ha.
    by destruct (readSyscalls env _ dir parse386 fs) as [[la [e|]] fs1].
  - unfold buildX32.
    pose proof (Hstep parseX32 "/arch/x86/entry/syscalls/syscall_64.tbl" fs
                  ltac:(simpl; tauto)) as Ha.
    by destruct (readSyscalls env _ dir parseX32 fs) as [[la [e|]] fs1].
  - unfold buildX86_64.
    pose proof (Hstep parseX86_64 "/arch/x86/entry/syscalls/syscall_64.tbl" fs
                  ltac:(simpl; tauto)) as Ha.
    by destruct (readSyscalls env _ dir parseX86_64 fs) as [[la [e|]] fs1].
Qed.

Lemma run_builders_frame env bs tmp arches fs k :
  (∀ b, b ∈ bs → b ∈ builders) → k ∉ scratch_keys env tmp →
  files (run_builders env bs tmp arches fs).2 !! k = files fs !! k.
Proof.
  intros Hbs Hk. revert arches fs.
  induction bs as [|b bs IH]; intros arches fs; [done|]. simpl.
  pose proof (builders_frame b env tmp fs k (Hbs b ltac:(by left)) Hk) as Hb.
  destruct (b env tmp fs) as [[arch|e] fs1]; simpl in *; [|done].
  rewrite IH; [done|]. intros b' Hb'. apply Hbs. by right.
Qed.
End Frame.

Lemma Clean_IsAbs path : IsAbs path = true → IsAbs (Clean path) = true.
Proof.
  unfold IsAbs, Clean. intros Hroot.
  destruct (is_empty path) eqn:Hempty; [by destruct path|].
  rewrite Hroot, append_cons, append_nil_l. unfold HasPrefix, String.prefix.
  destruct (ascii_dec _ _); [|done]. by destruct (String.concat _ _).
Qed.

Lemma Abs_IsAbs wd path : IsAbs wd = true → IsAbs (Abs wd path) = true.
Proof.
  intros Hwd. unfold Abs. destruct (IsAbs path) eqn:Hpath.
  - by apply Clean_IsAbs.
  - unfold Join. destruct wd as [|c wd]; [by compute in Hwd|].
    cbn [is_empty negb]. apply Clean_IsAbs. rewrite append_cons.
    revert Hwd. unfold IsAbs, HasPrefix, String.prefix.
    destruct (ascii_dec _ _); [|done]. intros _.
    by destruct (wd +:+ "/" +:+ path).
Qed.

Lemma in_dir_IsAbs wd env :
  IsAbs wd = true →
  IsAbs (outputFile (in_dir wd env)) = true
  ∧ (∀ tmp, TempDir (in_dir wd env) = Some tmp → IsAbs tmp = true).
Proof.
  intros Hwd. split; [by apply Abs_IsAbs|]. simpl.
  destruct (TempDir env) as [tmp0|]; [|done].
  intros tmp [= <-]. by apply Abs_IsAbs.
Qed.

(** X6.  What a run leaves alone, for a run whose output path and scratch
    directory are absolute and for files and directories named by absolute
    path, so that two different cleaned paths are two different files.
    Without a scratch directory the disk is untouched; otherwise every file
    that is not a scratch copy, not the output file and not below the scratch
    directory keeps its content, and every directory that is not the scratch
    directory or below it stays as it was, whether the run succeeds or
    fails. *)
Theorem main_frame `{SortSlice} env fs :
  IsAbs (outputFile env) = true →
  (∀ tmp, TempDir env = Some tmp → IsAbs tmp = true) →
  (TempDir env = None → disk (main env fs) = fs)
  ∧ (∀ tmp, TempDir env = Some tmp →
       (∀ name, IsAbs name = true →
                Clean name ∉ scratch_keys env tmp →
                Clean name ≠ Clean (outputFile env) →
                under (Clean tmp) (Clean name) = false →
                os_Open name (disk (main env fs)) = os_Open name fs)
       ∧ (∀ name, IsAbs name = true →
                  under (Clean tmp) (Clean name) = false →
                  Clean name ∈ dirs (disk (main env fs))
                  ↔ Clean name ∈ dirs fs)).
Proof.
  intros _ _. unfold main, os_Open. split; [by intros ->|]. intros tmp ->.
  pose proof (run_builders_dirs env builders tmp [] (Mkdir tmp fs)
                (λ b Hb, Hb)) as Hdirs.
  pose proof (λ k, run_builders_frame env builders tmp [] (Mkdir tmp fs) k
                     (λ b Hb, Hb)) as Hfiles.
  assert (∀ d, under (Clean tmp) d = false →
               d ∈ ({[Clean tmp]} ∪ dirs fs : gset string) ↔ d ∈ dirs fs)
    as Hother.
  { intros d Hd. rewrite elem_of_union, elem_of_singleton.
    split; [|by right]. intros [->|]; [|done].
    unfold under in Hd. by rewrite String.eqb_refl in Hd. }
  destruct (run_builders env builders tmp [] (Mkdir tmp fs))
    as [[arches|e] fs1]; simpl in Hdirs, Hfiles.
  - destruct (create_ok env (outputFile env)); simpl.
    + destruct (write_fail env (outputFile env)); simpl.
      * split.
        -- intros name _ Hk Hout _. rewrite !lookup_insert_ne by done.
           by apply Hfiles.
        -- intros d _ Hd. rewrite Hdirs. by apply Hother.
      * split.
        -- intros name _ Hk Hout Hunder.
           rewrite map_lookup_filter, !lookup_insert_ne, Hfiles by done.
           destruct (files fs !! Clean name) as [text|]; [|done]. simpl.
           by rewrite option_guard_True.
        -- intros d _ Hd. rewrite elem_of_filter, Hdirs.
           rewrite (Hother _ Hd). tauto.
    + split; [intros name _ Hk _ _; by apply Hfiles|].
      intros d _ Hd. simpl. rewrite Hdirs. by apply Hother.
  - simpl. split; [intros name _ Hk _ _; by apply Hfiles|].
    intros d _ Hd. rewrite Hdirs. by apply Hother.
Qed.

Lemma main_frame_witness :
  os_Open "/home/user/notes.txt"
    (disk (main (H:=stableSlice) (in_dir "/home/user" fixtureEnv) homeFSOld))
  = os_Open "/home/user/notes.txt" homeFSOld.
Proof.
  assert (IsAbs (outputFile (in_dir "/home/user" fixtureEnv)) = true) as Hout
    by reflexivity.
  assert (∀ tmp, TempDir (in_dir "/home/user" fixtureEnv) = Some tmp →
                 IsAbs tmp = true) as Htmp
    by (intros tmp [= <-]; reflexivity).
  destruct (main_frame (H:=stableSlice) (in_dir "/home/user" fixtureEnv)
              homeFSOld Hout Htmp) as [_ Hsome].
  destruct (Hsome "/tmp/mk_linux_syscalls123" eq_refl) as [Hfiles _].
  apply Hfiles.
  - reflexivity.
  - apply (bool_decide_unpack _). by vm_compute.
  - by vm_compute.
  - reflexivity.
Defined.

(** The output file is not among the files that are left alone: started in
    [/home/user] with the default [-out zsyscalls.go], the run replaces what
    [/home/user/zsyscalls.go] held. *)
Example main_overwrites_output :
  outputFile fixtureEnv = "zsyscalls.go"
  ∧ os_Open "/home/user/zsyscalls.go" homeFSOld = Some "old text"
  ∧ os_Open "/home/user/zsyscalls.go"
      (disk (main (H:=stableSlice) (in_dir "/home/user" fixtureEnv) homeFSOld))
    = Some (Execute (paramsOf (H:=stableSlice) fixtureEnv)).
Proof. split; [done|]. split; by vm_compute. Qed.

(** ** Names and numbers of the pairs *)

Lemma space_width_0 c r :
  space_width (String c r) = 0%nat → is_ascii_space c = false.
Proof.
  unfold space_width, is_ascii_space.
  by destruct ((9 <=? byte c) && (byte c <=? 13) || (byte c =? 32))%N.
Qed.

Lemma all_of_rev_string f acc s :
  all_of f acc = true → all_of f s = true →
  all_of f (rev_string acc s) = true.
Proof.
  revert acc. induction s as [|c s IH]; intros acc Hacc Hs; [done|].
  simpl in *. apply andb_true_iff in Hs as [Hc Hs].
  apply IH; [|done]. simpl. by rewrite Hc.
Qed.

Lemma rev_string_nonempty acc s :
  acc ≠ EmptyString ∨ s ≠ EmptyString → rev_string acc s ≠ EmptyString.
Proof.
  revert acc. induction s as [|c s IH]; intros acc Hne; simpl.
  - by destruct Hne.
  - apply IH. by left.
Qed.

Lemma fields_from_blank_free skip cur s f :
  all_of (λ c, negb (is_ascii_space c)) cur = true →
  f ∈ fields_from skip cur s → blank_free f.
Proof.
  assert (∀ cur fs f,
            all_of (λ c, negb (is_ascii_space c)) cur = true →
            f ∈ flush cur fs → blank_free f ∨ f ∈ fs) as Hflush.
  { intros cur' fs f' Hcur. unfold flush.
    destruct cur' as [|c cur']; cbn [is_empty]; [intros Hin; by right|].
    intros [->|Hin]%elem_of_cons; [left|by right].
    split; [apply rev_string_nonempty; by right|].
    by apply all_of_rev_string. }
  revert skip cur.
  induction s as [|c r IH]; intros skip cur Hcur; cbn [fields_from].
  - intros Hin. destruct (Hflush _ _ _ Hcur Hin) as [?|Hnil]; [done|].
    by apply elem_of_nil in Hnil.
  - destruct skip as [|k]; [|by apply IH].
    destruct (space_width (String c r)) as [|k] eqn:Hw.
    + apply IH. simpl. by rewrite (space_width_0 c r Hw).
    + intros Hin. destruct (Hflush _ _ _ Hcur Hin) as [?|Hrest]; [done|].
      by apply (IH k EmptyString).
Qed.

(** The fields of a line are not empty and hold no white space byte. *)
Lemma Fields_blank_free s f : f ∈ Fields s → blank_free f.
Proof. by apply fields_from_blank_free. Qed.

Lemma run_of_name_blank_free s : run_of is_name_char s → blank_free s.
Proof.
  intros [Hne Hall]. split; [done|]. clear Hne.
  induction s as [|c s IH]; [done|]. simpl in *.
  apply andb_true_iff in Hall as [Hc Hall]. rewrite IH by done.
  rewrite andb_true_r. apply negb_true_iff.
  destruct (is_ascii_space c) eqn:Hsp; [|done].
  assert (is_regex_space c = true ∨ byte c = 11%N) as [Hrs|Hvt].
  { unfold is_ascii_space, is_regex_space in *. revert Hsp.
    generalize (byte c). intros n.
    rewrite !orb_true_iff, andb_true_iff, !N.leb_le, !N.eqb_eq. lia. }
  - by rewrite (space_not_name c Hrs) in Hc.
  - unfold is_name_char, is_lower, is_digit in Hc. rewrite Hvt in Hc. done.
Qed.

Ltac table_name :=
  intros line s;
  match goal with |- ?parse line = _ → _ => unfold parse end;
  destruct (len_is_zero line || HasPrefix line "#"); [done|];
  destruct (Fields line) as [|f0 [|f1 [|f2 rest]]] eqn:Hf; try done;
  repeat match goal with
         | |- context [String.eqb f1 ?t] => destruct (String.eqb f1 t); [done|]
         end;
  destruct (Atoi f0) as [num|] eqn:Hnum; [|done];
  intros [= <-]; simpl;
  (split; [apply (Fields_blank_free line); rewrite Hf; do 2 right; left|]);
  unfold Atoi in Hnum;
  destruct (match f0 with
            | String "+" r => (false, r)
            | String "-" r => (true, r)
            | _ => (false, f0)
            end) as [neg body];
  destruct (is_empty body); [done|];
  destruct (digits_val 0 body) as [v|]; [|done];
  destruct (_ && _) eqn:Hrange; [|done];
  injection Hnum as <-;
  apply andb_true_iff in Hrange as [?%Z.leb_le ?%Z.leb_le]; done.

Lemma parseARMTable_pair line s :
  parseARMTable line = Ok (Some s) →
  blank_free (Name s) ∧ minInt ≤ Num s ≤ maxInt.
Proof. revert line s. table_name. Qed.

Lemma parse386_pair line s :
  parse386 line = Ok (Some s) →
  blank_free (Name s) ∧ minInt ≤ Num s ≤ maxInt.
Proof. revert line s. table_name. Qed.

Lemma parseX32_pair line s :
  parseX32 line = Ok (Some s) →
  blank_free (Name s) ∧ minInt ≤ Num s ≤ maxInt.
Proof. revert line s. table_name. Qed.

Lemma parseX86_64_pair line s :
  parseX86_64 line = Ok (Some s) →
  blank_free (Name s) ∧ minInt ≤ Num s ≤ maxInt.
Proof. revert line s. table_name. Qed.

Lemma Atoi_range s n : Atoi s = Some n → minInt ≤ n ≤ maxInt.
Proof.
  unfold Atoi.
  destruct (match s with
            | String "+" r => (false, r)
            | String "-" r => (true, r)
            | _ => (false, s)
            end) as [neg body].
  destruct (is_empty body); [done|].
  destruct (digits_val 0 body) as [v|]; [|done].
  destruct (_ && _) eqn:Hrange; [|done].
  intros [= <-]. by apply andb_true_iff in Hrange as [?%Z.leb_le ?%Z.leb_le].
Qed.

Lemma wrap_int_range z : minInt ≤ wrap_int z ≤ maxInt.
Proof.
  unfold wrap_int, minInt, maxInt.
  pose proof (Z.mod_pos_bound (z + 2 ^ 63) (2 ^ 64) ltac:(lia)). lia.
Qed.

(** The sum of a number without sign and the base of the private calls is
    the sum of the integers, or has wrapped around to a negative number. *)
Lemma wrap_int_base n :
  0 ≤ n ≤ maxInt →
  (n + armNrBase ≤ maxInt ∧ wrap_int (n + armNrBase) = n + armNrBase)
  ∨ (maxInt < n + armNrBase
     ∧ wrap_int (n + armNrBase) = n + armNrBase - 2 ^ 64).
Proof.
  unfold maxInt, armNrBase. intros Hn.
  destruct (Z_le_gt_dec (n + 983040) (2 ^ 63 - 1)) as [Hfit|Hover].
  - left. split; [done|]. apply wrap_int_small. unfold minInt, maxInt. lia.
  - right. split; [lia|]. unfold wrap_int.
    replace (n + 983040 + 2 ^ 63) with ((n + 983040 - 2 ^ 63) + 1 * 2 ^ 64)
      by lia.
    rewrite Z.mod_add by lia. rewrite Z.mod_small; lia.
Qed.

Lemma parseARMHeader_pair line s :
  parseARMHeader line = Ok (Some s) →
  run_of is_name_char (Name s)
  ∧ minInt ≤ Num s ≤ maxInt
  ∧ (armNrBase ≤ Num s ∨ Num s < minInt + armNrBase).
Proof.
  unfold parseARMHeader.
  destruct (armUnistdSycallRegex_length line) as [->|(w & n & d & Hm)]; [done|].
  rewrite Hm. apply armUnistdSycallRegex_spec in Hm
    as (sp & rest & _ & _ & Hn & _ & Hd).
  destruct (Atoi d) as [num|] eqn:Hnum; [|done]. intros [= <-]. simpl.
  split; [done|]. split; [apply wrap_int_range|].
  pose proof (Atoi_digits _ _ Hd Hnum). pose proof (Atoi_range _ _ Hnum).
  destruct (wrap_int_base num ltac:(lia)) as [[_ ->]|[_ ->]].
  - left. lia.
  - right. unfold minInt, maxInt in *. lia.
Qed.

Lemma parseAARCH64_pair line s :
  parseAARCH64 line = Ok (Some s) →
  run_of is_name_char (Name s) ∧ 0 ≤ Num s ≤ maxInt.
Proof.
  unfold parseAARCH64.
  destruct (nrUnistdSycallRegex_length line) as [->|(w & n & d & Hm)]; [done|].
  rewrite Hm. apply nrUnistdSycallRegex_spec in Hm
    as (opt & sp & rest & _ & _ & _ & Hn & _ & Hd & _).
  destruct (_ || _); [done|].
  destruct (Atoi d) as [num|] eqn:Hnum; [|done]. intros [= <-]. simpl.
  pose proof (Atoi_digits _ _ Hd Hnum). pose proof (Atoi_range _ _ Hnum).
  split; [done|lia].
Qed.

(** Every parser yields a name without blanks and a number that fits an
    [int]. *)
Lemma source_files_pair parse path line s :
  (parse, path) ∈ source_files →
  parse line = Ok (Some s) →
  blank_free (Name s) ∧ minInt ≤ Num s ≤ maxInt.
Proof.
  unfold source_files. rewrite !elem_of_cons, elem_of_nil.
  intros [Hp|[Hp|[Hp|[Hp|[Hp|[Hp|[]]]]]]]; injection Hp as -> ->; intros Hs.
  - by apply parseARMTable_pair in Hs.
  - apply parseARMHeader_pair in Hs as (Hn & Hr & _).
    split; [by apply run_of_name_blank_free|done].
  - apply parseAARCH64_pair in Hs as (Hn & Hr).
    split; [by apply run_of_name_blank_free|]. unfold minInt. lia.
  - by apply parse386_pair in Hs.
  - by apply parseX32_pair in Hs.
  - by apply parseX86_64_pair in Hs.
Qed.

(** A pair that [readSyscalls] collects is the pair of some line. *)
Lemma parsed_origin parse env path s :
  s ∈ parsed parse env path →
  ∃ raw, raw ∈ linesOf env path ∧ parse (TrimSpace raw) = Ok (Some s).
Proof.
  unfold parsed, linesOf, scanSyscalls.
  destruct (Scanner (fetched env path)) as [lines scanErr]. simpl.
  destruct (scan_loop parse lines []) as [syscalls|e] eqn:Hloop; simpl.
  - apply scan_loop_ok in Hloop as [-> _]. simpl.
    intros (raw & Hin & Hraw)%list_elem_of_omap. exists raw. split; [done|].
    unfold yield in Hraw.
    by destruct (parse (TrimSpace raw)) as [[s'|]|e]; simplify_eq.
  - by intros ?%elem_of_nil.
Qed.

(** A pair of a final list is the pair of some line of some file. *)
Lemma final_pair_origin `{SortSlice} b p env dir fs arch fs' s :
  (b, p) ∈ architectures →
  b env dir fs = (Ok arch, fs') →
  s ∈ Syscalls arch →
  ∃ parse path raw, (parse, path) ∈ source_files
                    ∧ raw ∈ linesOf env path
                    ∧ parse (TrimSpace raw) = Ok (Some s).
Proof.
  intros Hin Hrun. rewrite (architectures_ok _ _ _ _ _ _ _ Hin Hrun).
  rewrite sort_Slice_perm. clear Hrun. revert Hin.
  unfold architectures. rewrite !elem_of_cons, elem_of_nil.
  assert (∀ parse path, In (parse, path) source_files →
            s ∈ parsed parse env path →
            ∃ parse path raw, (parse, path) ∈ source_files
                              ∧ raw ∈ linesOf env path
                              ∧ parse (TrimSpace raw) = Ok (Some s)) as Hone.
  { intros parse path Hfile (raw & Hraw & Hs)%parsed_origin.
    exists parse, path, raw. split; [by apply list_elem_of_In|done]. }
  intros [Hb|[Hb|[Hb|[Hb|[Hb|[]]]]]]; injection Hb as -> ->.
  - unfold parsedARM. rewrite elem_of_app.
    intros [Hs|Hs]; (eapply Hone; [|exact Hs]); simpl; tauto.
  - unfold parsedAARCH64. intros Hs. eapply Hone; [|exact Hs]. simpl; tauto.
  - unfold parsed386. intros Hs. eapply Hone; [|exact Hs]. simpl; tauto.
  - unfold parsedX32. intros Hs. eapply Hone; [|exact Hs]. simpl; tauto.
  - unfold parsedX86_64. intros Hs. eapply Hone; [|exact Hs]. simpl; tauto.
Qed.

(** ** The numbers the template prints *)

Lemma digits_val_uint_acc (l : Decimal.uint) (acc : positive) :
  digits_val (Z.pos acc) (NilEmpty.string_of_uint l)
  = Some (Z.pos (Pos.of_uint_acc l acc)).
Proof.
  revert acc. induction l as [|l IH|l IH|l IH|l IH|l IH|l IH|l IH|l IH|l IH|l IH];
    intros acc; [done|..];
    cbn [NilEmpty.string_of_uint digits_val Pos.of_uint_acc];
    change (is_digit _) with true; cbv iota;
    rewrite <- IH; f_equal; vm_compute (Z.of_N (byte _)); lia.
Qed.

Lemma digits_val_uint (l : Decimal.uint) :
  digits_val 0 (NilEmpty.string_of_uint l) = Some (Z.of_N (Pos.of_uint l)).
Proof.
  induction l as [|l IH|l IH|l IH|l IH|l IH|l IH|l IH|l IH|l IH|l IH];
    [done|exact IH|..];
    cbn [NilEmpty.string_of_uint digits_val Pos.of_uint];
    change (is_digit _) with true; cbv iota;
    apply (digits_val_uint_acc l).
Qed.

Lemma string_of_to_uint (p : positive) :
  ∃ c r, NilZero.string_of_uint (Pos.to_uint p) = String c r
         ∧ is_digit c = true
         ∧ digits_val 0 (String c r) = Some (Z.pos p).
Proof.
  pose proof (DecimalPos.Unsigned.of_to p) as Hof.
  pose proof (digits_val_uint (Pos.to_uint p)) as Hval.
  rewrite Hof in Hval. simpl in Hval.
  unfold NilZero.string_of_uint.
  destruct (Pos.to_uint p) as [|l|l|l|l|l|l|l|l|l|l]; [done|..];
    cbn [NilEmpty.string_of_uint] in *; eauto.
Qed.

(** What the template prints for a number that fits an [int],
    [strconv.Atoi] reads as that number. *)
Lemma Atoi_itoa n : minInt ≤ n ≤ maxInt → Atoi (itoa n) = Some n.
Proof.
  intros Hn. unfold itoa. destruct n as [|p|p]; [done|..].
  - destruct (string_of_to_uint p) as (c & r & Hs & Hc & Hv).
    cbn [Z.to_int NilZero.string_of_int]. rewrite Hs. unfold Atoi.
    assert (match String c r with
            | String "+" r' => (false, r')
            | String "-" r' => (true, r')
            | _ => (false, String c r)
            end = (false, String c r)) as ->.
    { destruct c as [[] [] [] [] [] [] [] []]; try done; by vm_compute in Hc. }
    cbn [is_empty]. rewrite Hv.
    destruct Hn as [?%Z.leb_le ?%Z.leb_le]. by rewrite H, H0.
  - destruct (string_of_to_uint p) as (c & r & Hs & Hc & Hv).
    cbn [Z.to_int NilZero.string_of_int]. rewrite Hs. unfold Atoi.
    cbn [is_empty]. rewrite Hv.
    change (- Z.pos p) with (Z.neg p).
    destruct Hn as [?%Z.leb_le ?%Z.leb_le]. by rewrite H, H0.
Qed.

(** A run of digits is a number below the power of ten of its length. *)
Lemma digits_val_bound s acc :
  all_of is_digit s = true → 0 ≤ acc →
  ∃ v, digits_val acc s = Some v
       ∧ v < (acc + 1) * 10 ^ Z.of_nat (String.length s).
Proof.
  revert acc. induction s as [|c s IH]; intros acc Hall Hacc.
  - exists acc. split; [done|]. simpl. lia.
  - simpl in Hall. apply andb_true_iff in Hall as [Hc Hall].
    cbn [digits_val]. rewrite Hc.
    assert (0 ≤ Z.of_N (byte c) - 48 ≤ 9) as Hd.
    { unfold is_digit in Hc.
      apply andb_true_iff in Hc as [?%N.leb_le ?%N.leb_le]. lia. }
    destruct (IH (10 * acc + (Z.of_N (byte c) - 48)) Hall ltac:(lia))
      as (v & -> & Hv).
    exists v. split; [done|].
    cbn [String.length]. rewrite Nat2Z.inj_succ, Z.pow_succ_r by lia.
    nia.
Qed.

(** Up to eighteen digits always parse, to a number below [10^18]. *)
Lemma Atoi_short_digits number :
  run_of is_digit number → (String.length number ≤ 18)%nat →
  ∃ n, Atoi number = Some n ∧ 0 ≤ n < 10 ^ 18.
Proof.
  intros [Hne Hall] Hshort.
  destruct (digits_val_bound number 0 Hall ltac:(lia)) as (v & Hv & Hlt).
  pose proof (digits_val_nonneg number 0 v ltac:(lia) Hv) as Hpos.
  assert (10 ^ Z.of_nat (String.length number) ≤ 10 ^ 18) as Hpow
    by (apply Z.pow_le_mono_r; lia).
  assert (v < 10 ^ 18) as Hv18 by lia.
  exists v. split; [|done].
  destruct number as [|c r]; [done|]. simpl in Hall.
  apply andb_true_iff in Hall as [Hc _]. unfold Atoi.
  assert (match String c r with
          | String "+" r' => (false, r')
          | String "-" r' => (true, r')
          | _ => (false, String c r)
          end = (false, String c r)) as ->.
  { destruct c as [[] [] [] [] [] [] [] []]; try done; by vm_compute in Hc. }
  cbn [is_empty]. rewrite Hv.
  assert ((minInt <=? v) && (v <=? maxInt) = true) as ->; [|done].
  apply andb_true_iff. unfold minInt, maxInt. split; apply Z.leb_le; lia.
Qed.

(** Digits fail to parse only when there are nineteen of them or more. *)
Lemma Atoi_digits_None number :
  run_of is_digit number → Atoi number = None →
  (19 ≤ String.length number)%nat.
Proof.
  intros Hrun Hnone.
  destruct (le_lt_dec 19 (String.length number)) as [|Hshort]; [done|].
  destruct (Atoi_short_digits number Hrun ltac:(lia)) as (n & Hn & _).
  by rewrite Hn in Hnone.
Qed.

(** X7.  Every name of a final list is not empty and holds no white space
    byte, so it cannot break the line of its entry; the names of AARCH64 are
    made of [a-z], [0-9] and [_] only. *)
Theorem final_names_well_formed `{SortSlice} env dir fs arch fs' s :
  s ∈ Syscalls arch →
  (∀ b p, (b, p) ∈ architectures → b env dir fs = (Ok arch, fs') →
          blank_free (Name s))
  ∧ (buildAARCH64 env dir fs = (Ok arch, fs') →
     run_of is_name_char (Name s)).
Proof.
  intros Hs. split.
  - intros b p Hin Hrun.
    destruct (final_pair_origin b p env dir fs arch fs' s Hin Hrun Hs)
      as (parse & path & raw & Hfile & _ & Hraw).
    by destruct (source_files_pair parse path _ s Hfile Hraw).
  - intros Hrun. apply buildAARCH64_ok in Hrun as [-> _]. simpl in Hs.
    rewrite sort_Slice_perm in Hs.
    apply parsed_origin in Hs as (raw & _ & Hraw).
    by apply parseAARCH64_pair in Hraw as [? _].
Qed.

Lemma final_names_well_formed_witness :
  blank_free "rt_sigaction".
Proof.
  destruct (final_names_well_formed (H:=stableSlice) fixtureEnv "/tmp/scratch"
              emptyFS
              {| ArchName := "X86_64";
                 Syscalls := [ {| Num := 0; Name := "read" |};
                               {| Num := 13; Name := "rt_sigaction" |} ] |}
              (buildX86_64 (H:=stableSlice) fixtureEnv "/tmp/scratch" emptyFS).2
              {| Num := 13; Name := "rt_sigaction" |}) as [Hall _].
  - right. left.
  - apply (Hall (@buildX86_64 stableSlice) parsedX86_64).
    + unfold architectures. do 4 right. left.
    + vm_compute. reflexivity.
Defined.

(** X8.  Every number of a final list fits an [int], and the decimal text
    that the template prints for it is read back by [strconv.Atoi] as the
    same number; the numbers of AARCH64 are not negative. *)
Theorem final_numbers_read_back `{SortSlice} env dir fs arch fs' s :
  s ∈ Syscalls arch →
  (∀ b p, (b, p) ∈ architectures → b env dir fs = (Ok arch, fs') →
          minInt ≤ Num s ≤ maxInt ∧ Atoi (itoa (Num s)) = Some (Num s))
  ∧ (buildAARCH64 env dir fs = (Ok arch, fs') → 0 ≤ Num s).
Proof.
  intros Hs. split.
  - intros b p Hin Hrun.
    destruct (final_pair_origin b p env dir fs arch fs' s Hin Hrun Hs)
      as (parse & path & raw & Hfile & _ & Hraw).
    destruct (source_files_pair parse path _ s Hfile Hraw) as [_ Hrange].
    split; [done|by apply Atoi_itoa].
  - intros Hrun. apply buildAARCH64_ok in Hrun as [-> _]. simpl in Hs.
    rewrite sort_Slice_perm in Hs.
    apply parsed_origin in Hs as (raw & _ & Hraw).
    by apply parseAARCH64_pair in Hraw as [_ [? _]].
Qed.

Lemma final_numbers_read_back_witness :
  minInt ≤ 983045 ≤ maxInt ∧ Atoi (itoa 983045) = Some 983045.
Proof.
  destruct (final_numbers_read_back (H:=stableSlice) fixtureEnv "/tmp/scratch"
              emptyFS
              {| ArchName := "ARM";
                 Syscalls :=
                   [ {| Num := 1; Name := "exit" |};
                     {| Num := 3; Name := "read" |};
                     {| Num := 403; Name := "clock_gettime64" |};
                     {| Num := 983041; Name := "breakpoint" |};
                     {| Num := 983045; Name := "set_tls" |} ] |}
              (buildARM (H:=stableSlice) fixtureEnv "/tmp/scratch" emptyFS).2
              {| Num := 983045; Name := "set_tls" |}) as [Hall _].
  - do 4 right. left.
  - apply (Hall (@buildARM stableSlice) parsedARM).
    + unfold architectures. left.
    + vm_compute. reflexivity.
Defined.

(** X9.  A header parser fails on a line only with the error for the number
    of that line, and only when the line matches the pattern with nineteen
    digits or more: unlike the table parsers it never fails for the shape of a
    line. *)
Theorem header_parsers_errors :
  (∀ line e,
     parseARMHeader line = Err e →
     e = ErrParseNumber line
     ∧ ∃ whole syscall number,
         matchesARM line whole syscall number ∧ Atoi number = None
         ∧ (19 ≤ String.length number)%nat)
  ∧ (∀ line e,
       parseAARCH64 line = Err e →
       e = ErrParseNumber line
       ∧ ∃ whole syscall number,
           matchesNR line whole syscall number ∧ Atoi number = None
           ∧ (19 ≤ String.length number)%nat).
Proof.
  split; intros line e.
  - unfold parseARMHeader.
    destruct (armUnistdSycallRegex_length line) as [->|(w & n & d & Hm)];
      [done|].
    rewrite Hm. apply armUnistdSycallRegex_spec in Hm.
    destruct (Atoi d) as [num|] eqn:Hnum; [done|]. intros [= <-].
    split; [done|]. exists w, n, d. split; [done|]. split; [done|].
    destruct Hm as (sp & rest & _ & _ & _ & _ & Hd).
    by apply Atoi_digits_None.
  - unfold parseAARCH64.
    destruct (nrUnistdSycallRegex_length line) as [->|(w & n & d & Hm)];
      [done|].
    rewrite Hm. apply nrUnistdSycallRegex_spec in Hm.
    destruct (_ || _); [done|].
    destruct (Atoi d) as [num|] eqn:Hnum; [done|]. intros [= <-].
    split; [done|]. exists w, n, d. split; [done|]. split; [done|].
    destruct Hm as (opt & sp & rest & _ & _ & _ & _ & _ & Hd & _).
    by apply Atoi_digits_None.
Qed.

Lemma header_parsers_errors_witness :
  ErrParseNumber "#define __NR_huge 99999999999999999999"
  = ErrParseNumber "#define __NR_huge 99999999999999999999"
  ∧ ∃ whole syscall number,
      matchesNR "#define __NR_huge 99999999999999999999" whole syscall number
      ∧ Atoi number = None ∧ (19 ≤ String.length number)%nat.
Proof.
  destruct header_parsers_errors as [_ Hnr].
  by apply (Hnr "#define __NR_huge 99999999999999999999").
Defined.

(** X10.  A matching header line with at most eighteen digits always
    parses: ARM's parser yields exactly the number plus [0x0f0000], AARCH64's
    parser the number (for a name it does not skip).  Whatever ARM's parser
    yields is at least [0x0f0000], or the sum wrapped around to a number
    below [minInt + 0x0f0000]. *)
Theorem header_short_numbers :
  (∀ line whole syscall number,
     matchesARM line whole syscall number →
     (String.length number ≤ 18)%nat →
     ∃ n, Atoi number = Some n ∧ 0 ≤ n < 10 ^ 18
          ∧ parseARMHeader line
            = Ok (Some {| Num := n + armNrBase; Name := syscall |}))
  ∧ (∀ line whole syscall number,
       matchesNR line whole syscall number →
       (String.length number ≤ 18)%nat →
       syscall ≠ "syscalls" → syscall ≠ "sync_file_range2" →
       ∃ n, Atoi number = Some n ∧ 0 ≤ n < 10 ^ 18
            ∧ parseAARCH64 line = Ok (Some {| Num := n; Name := syscall |}))
  ∧ (∀ line s,
       parseARMHeader line = Ok (Some s) →
       armNrBase ≤ Num s ≤ maxInt ∨ minInt ≤ Num s < minInt + armNrBase).
Proof.
  split; [|split].
  - intros line whole syscall number Hm Hshort.
    pose proof Hm as (sp & rest & _ & _ & _ & _ & Hd).
    destruct (Atoi_short_digits number Hd Hshort) as (n & Hn & Hrange).
    exists n. split; [done|]. split; [done|].
    apply armUnistdSycallRegex_spec in Hm. unfold parseARMHeader.
    rewrite Hm, Hn. rewrite wrap_int_small; [done|].
    unfold minInt, maxInt, armNrBase. lia.
  - intros line whole syscall number Hm Hshort Hs Ho.
    pose proof Hm as (opt & sp & rest & _ & _ & _ & _ & _ & Hd & _).
    destruct (Atoi_short_digits number Hd Hshort) as (n & Hn & Hrange).
    exists n. split; [done|]. split; [done|].
    apply nrUnistdSycallRegex_spec in Hm. unfold parseAARCH64, sentinel, omit.
    by rewrite Hm, (eqb_string_false _ _ Hs), (eqb_string_false _ _ Ho), Hn.
  - intros line s (_ & Hrange & Hbase)%parseARMHeader_pair. lia.
Qed.

Lemma header_short_numbers_witness :
  ∃ n, Atoi "5" = Some n ∧ 0 ≤ n < 10 ^ 18
       ∧ parseARMHeader "#define __ARM_NR_set_tls  (__ARM_NR_BASE+5)"
         = Ok (Some {| Num := n + armNrBase; Name := "set_tls" |}).
Proof.
  destruct header_short_numbers as [Harm _].
  apply (Harm _ "#define __ARM_NR_set_tls  (__ARM_NR_BASE+5)").
  - by apply armUnistdSycallRegex_spec.
  - simpl. lia.
Defined.

(** ** The two lists made from [syscall_64.tbl] *)

Lemma omap_sublist {A B : Type} (f g : A → option B) (l : list A) :
  Forall (λ x, ∀ y, f x = Some y → g x = Some y) l →
  omap f l `sublist_of` omap g l.
Proof.
  induction 1 as [|x l Hx Hall IH]; [done|]. csimpl.
  destruct (f x) as [y|] eqn:Hf.
  - rewrite (Hx y eq_refl). by apply sublist_skip.
  - destruct (g x); [by apply sublist_cons|done].
Qed.

(** A line without the tag [x64] that yields a pair for X86_64 yields the
    same pair for X32. *)
Lemma x86_64_line_in_x32 raw s :
  abi_is "x64" raw = false →
  yield parseX86_64 raw = Some s → yield parseX32 raw = Some s.
Proof.
  unfold abi_is, abi, yield, parseX86_64, parseX32.
  generalize (TrimSpace raw). intros line.
  destruct (len_is_zero line || HasPrefix line "#"); [done|].
  destruct (Fields line) as [|f0 [|f1 [|f2 rest]]]; simpl; try done.
  intros ->. destruct (String.eqb f1 "x32"); [done|].
  by destruct (Atoi f0).
Qed.

Lemma Forall_forallb_abi tag lines :
  forallb (λ raw, negb (abi_is tag raw)) lines = true →
  Forall (λ raw, abi_is tag raw = false) lines.
Proof.
  rewrite forallb_forall, Forall_forall. intros Hall raw Hin.
  specialize (Hall raw (proj1 (list_elem_of_In _ _) Hin)).
  by destruct (abi_is tag raw).
Qed.

(** X11.  Both X32 and X86_64 are built from [syscall_64.tbl]; when no
    line of it carries the tag [x64] (the tag that X32 skips), every pair of
    X86_64's final list is also in X32's. *)
Theorem x86_64_within_x32 `{SortSlice} env dir fs fs0 a32 a64 fs32 fs64 :
  buildX32 env dir fs = (Ok a32, fs32) →
  buildX86_64 env dir fs0 = (Ok a64, fs64) →
  Forall (λ raw, abi_is "x64" raw = false)
    (linesOf env "/arch/x86/entry/syscalls/syscall_64.tbl") →
  Syscalls a64 ⊆+ Syscalls a32.
Proof.
  intros H32%buildX32_lines H64%buildX86_64_lines Hno.
  rewrite H32, H64. apply sublist_submseteq, omap_sublist.
  eapply Forall_impl; [exact Hno|]. intros raw Hraw s.
  by apply x86_64_line_in_x32.
Qed.

Lemma x86_64_within_x32_witness :
  [ {| Num := 0; Name := "read" |}; {| Num := 13; Name := "rt_sigaction" |} ]
  ⊆+ [ {| Num := 0; Name := "read" |}; {| Num := 13; Name := "rt_sigaction" |};
       {| Num := 512; Name := "rt_sigaction" |} ].
Proof.
  apply (x86_64_within_x32 (H:=stableSlice) fixtureEnv "/tmp/scratch"
           emptyFS emptyFS
           {| ArchName := "X32";
              Syscalls := [ {| Num := 0; Name := "read" |};
                            {| Num := 13; Name := "rt_sigaction" |};
                            {| Num := 512; Name := "rt_sigaction" |} ] |}
           {| ArchName := "X86_64";
              Syscalls := [ {| Num := 0; Name := "read" |};
                            {| Num := 13; Name := "rt_sigaction" |} ] |}
           (buildX32 (H:=stableSlice) fixtureEnv "/tmp/scratch" emptyFS).2
           (buildX86_64 (H:=stableSlice) fixtureEnv "/tmp/scratch" emptyFS).2).
  - vm_compute. reflexivity.
  - vm_compute. reflexivity.
  - apply (Forall_forallb_abi "x64"). by vm_compute.
Defined.

(** ** Why a table parser fails *)

Lemma table_closures line :
  parseARMTable line = tableParser (λ f1, String.eqb f1 "oabi") line
  ∧ parse386 line = tableParser (λ _, false) line
  ∧ parseX32 line = tableParser (λ f1, String.eqb f1 "x64") line
  ∧ parseX86_64 line = tableParser (λ f1, String.eqb f1 "x32") line.
Proof. by repeat split. Qed.

Lemma tableParser_failure skips line e :
  tableParser skips line = Err e ↔ table_failure skips line e.
Proof.
  unfold tableParser, table_failure.
  destruct (len_is_zero line) eqn:Hlen; simpl.
  { split; [done|]. by intros (? & _). }
  destruct (HasPrefix line "#") eqn:Hpre; simpl.
  { split; [done|]. by intros (_ & ? & _). }
  destruct (Fields line) as [|f0 [|f1 [|f2 rest]]] eqn:Hf; simpl.
  - split; [intros [= <-]; repeat split; left; split; [done|lia]|].
    intros (_ & _ & [[-> _]|(? & ? & ? & ? & ? & _)]); done.
  - split; [intros [= <-]; repeat split; left; split; [done|lia]|].
    intros (_ & _ & [[-> _]|(? & ? & ? & ? & ? & _)]); done.
  - split; [intros [= <-]; repeat split; left; split; [done|lia]|].
    intros (_ & _ & [[-> _]|(? & ? & ? & ? & ? & _)]); done.
  - destruct (skips f1) eqn:Hskip.
    { split; [done|].
      intros (_ & _ & [[_ ?]|(? & ? & ? & ? & [= <- <- <- <-] & Hs & _)]);
        [lia|congruence]. }
    destruct (Atoi f0) as [num|] eqn:Hnum.
    { split; [done|].
      intros (_ & _ & [[_ ?]|(? & ? & ? & ? & [= <- <- <- <-] & _ & Hn & _)]);
        [lia|congruence]. }
    split.
    + intros [= <-]. repeat split. right. by exists f0, f1, f2, rest.
    + intros (_ & _ & [[_ ?]|(? & ? & ? & ? & _ & _ & _ & ->)]); [lia|done].
Qed.

(** X13.  A table parser fails on a line exactly when the line is neither
    empty nor a comment and either has fewer than three fields (unexpected
    line format) or has a first field that is no integer and an ABI field that
    the parser does not skip (failed to parse syscall number); the error
    carries the line. *)
Theorem table_parsers_errors line e :
  (parseARMTable line = Err e
   ↔ table_failure (λ f1, String.eqb f1 "oabi") line e)
  ∧ (parse386 line = Err e ↔ table_failure (λ _, false) line e)
  ∧ (parseX32 line = Err e
     ↔ table_failure (λ f1, String.eqb f1 "x64") line e)
  ∧ (parseX86_64 line = Err e
     ↔ table_failure (λ f1, String.eqb f1 "x32") line e).
Proof.
  destruct (table_closures line) as (-> & -> & -> & ->).
  split; [apply tableParser_failure|].
  split; [apply tableParser_failure|].
  split; apply tableParser_failure.
Qed.

Lemma table_parsers_errors_witness :
  table_failure (λ _, false) "2 i386" (ErrUnexpectedLine "2 i386").
Proof.
  destruct (table_parsers_errors "2 i386" (ErrUnexpectedLine "2 i386"))
    as (_ & H386 & _).
  by apply H386.
Defined.

(** ** The lines of the generated file *)

Lemma count_nl_append a b : count_nl (a +:+ b) = (count_nl a + count_nl b)%nat.
Proof.
  induction a as [|c a IH]; [done|].
  rewrite append_cons. cbn [count_nl]. rewrite IH. lia.
Qed.

Lemma count_nl_concat (l : list string) :
  count_nl (String.concat "" l) = sum_list_with count_nl l.
Proof.
  induction l as [|x l IH]; [done|].
  cbn [sum_list_with]. rewrite <- IH.
  destruct l as [|y l]; cbn [String.concat].
  - simpl. lia.
  - by rewrite !count_nl_append.
Qed.

Lemma sum_list_with_map {A B : Type} (f : B → nat) (g : A → B) (l : list A) :
  sum_list_with f (map g l) = sum_list_with (λ x, f (g x)) l.
Proof. induction l as [|x l IH]; [done|]. cbn [map sum_list_with]. by rewrite IH. Qed.

Lemma count_nl_uint (d : Decimal.uint) :
  count_nl (NilEmpty.string_of_uint d) = 0%nat.
Proof. induction d; cbn [NilEmpty.string_of_uint count_nl]; by rewrite ?IHd. Qed.

Lemma count_nl_itoa n : count_nl (itoa n) = 0%nat.
Proof.
  unfold itoa, NilZero.string_of_int, NilZero.string_of_uint.
  destruct (Z.to_int n) as [d|d]; destruct d;
    cbn [count_nl NilEmpty.string_of_uint]; by rewrite ?count_nl_uint.
Qed.

Lemma count_nl_blank_free s : blank_free s → count_nl s = 0%nat.
Proof.
  intros [_ Hall]. induction s as [|c s IH]; [done|].
  simpl in Hall. apply andb_true_iff in Hall as [Hc Hall].
  cbn [count_nl]. rewrite IH by done.
  destruct (Ascii.eqb c newline) eqn:Hnl; [|done].
  apply Ascii.eqb_eq in Hnl as ->. done.
Qed.

Lemma count_nl_renderSyscall s :
  count_nl (Name s) = 0%nat → count_nl (renderSyscall s) = 1%nat.
Proof.
  intros Hname. unfold renderSyscall.
  rewrite !count_nl_append, count_nl_itoa, Hname.
  reflexivity.
Qed.

Lemma count_nl_renderArch a :
  count_nl (ArchName a) = 0%nat →
  Forall (λ s, count_nl (Name s) = 0%nat) (Syscalls a) →
  count_nl (renderArch a) = (3 + length (Syscalls a))%nat.
Proof.
  intros Hname Hall. unfold renderArch.
  rewrite !count_nl_append, count_nl_concat, sum_list_with_map, Hname.
  assert (sum_list_with (λ s, count_nl (renderSyscall s)) (Syscalls a)
          = length (Syscalls a)) as ->.
  { induction Hall as [|s l Hs Hl IH]; [done|].
    cbn [sum_list_with length]. rewrite IH, count_nl_renderSyscall by done.
    lia. }
  change (count_nl nl) with 1%nat.
  change (count_nl "var syscalls") with 0%nat.
  change (count_nl " = map[int]string{") with 0%nat.
  change (count_nl "}") with 0%nat. lia.
Qed.

(** X12.  The template puts every pair on a line of its own: when the
    version, the names of the architectures and the names of the pairs hold
    no newline, the generated text has 23 lines of frame and, for every
    architecture, three lines and one line per pair. *)
Theorem Execute_line_count params :
  count_nl (LinuxVersion params) = 0%nat →
  Forall (λ a, count_nl (ArchName a) = 0%nat
               ∧ Forall (λ s, count_nl (Name s) = 0%nat) (Syscalls a))
    (Arches params) →
  count_nl (Execute params)
  = (23 + sum_list_with (λ a, 3 + length (Syscalls a))%nat (Arches params))%nat.
Proof.
  intros Hversion Hall. unfold Execute.
  rewrite !count_nl_append, count_nl_concat, sum_list_with_map, Hversion.
  assert (sum_list_with (λ a, count_nl (renderArch a)) (Arches params)
          = sum_list_with (λ a, 3 + length (Syscalls a))%nat (Arches params))
    as ->.
  { induction Hall as [|a l [Hname Hs] Hl IH]; [done|].
    cbn [sum_list_with]. by rewrite IH, count_nl_renderArch. }
  change (count_nl nl) with 1%nat. change (count_nl ".") with 0%nat.
  assert (count_nl templateHead = 21%nat) as -> by by vm_compute.
  lia.
Qed.

Lemma Execute_line_count_witness :
  count_nl (Execute (paramsOf (H:=stableSlice) fixtureEnv))
  = (23 + sum_list_with (λ a, 3 + length (Syscalls a))%nat
            (archesOf (H:=stableSlice) fixtureEnv))%nat.
Proof.
  apply (Execute_line_count (paramsOf (H:=stableSlice) fixtureEnv)).
  - reflexivity.
  - repeat constructor; by vm_compute.
Defined.

(** ** All or nothing *)

(** X14.  Nothing reaches the output file unless every file was fetched
    and parsed: what [main] has written is the whole generated text, with
    status 0, or the bytes of it before the write that failed, with status 1
    and the error of [tmpl.Execute]. *)
Theorem output_all_or_nothing `{SortSlice} env fs text :
  output (main env fs) = Some text →
  ∃ tmp,
    TempDir env = Some tmp ∧ files_ok env tmp
    ∧ create_ok env (outputFile env) = true
    ∧ ((write_fail env (outputFile env) = None
        ∧ text = Execute (paramsOf env)
        ∧ exit_status (main env fs) = 0)
       ∨ ∃ n, write_fail env (outputFile env) = Some n
              ∧ text = take_bytes n (Execute (paramsOf env))
              ∧ exit_status (main env fs) = 1
              ∧ logged (main env fs) = Some ErrExecute).
Proof.
  unfold main, paramsOf.
  destruct (TempDir env) as [tmp|] eqn:Htmp; [|done].
  destruct (run_builders env builders tmp [] (Mkdir tmp fs))
    as [[arches|e] fs1] eqn:Hrun; [|done].
  pose proof (run_builders_files_ok _ _ _ _ _ Hrun) as Hfiles.
  apply run_builders_ok in Hrun as [-> _].
  destruct (create_ok env (outputFile env)) eqn:Hcr; [|done]. simpl.
  destruct (write_fail env (outputFile env)) as [n|] eqn:Hwr; simpl.
  - intros [= <-]. exists tmp. repeat split; try done. right. by exists n.
  - intros [= <-]. exists tmp. repeat split; try done. by left.
Qed.

Lemma output_all_or_nothing_witness :
  ∃ tmp,
    TempDir envDiskFull = Some tmp ∧ files_ok envDiskFull tmp
    ∧ create_ok envDiskFull (outputFile envDiskFull) = true
    ∧ ((write_fail envDiskFull (outputFile envDiskFull) = None
        ∧ "// License" = Execute (paramsOf (H:=stableSlice) envDiskFull)
        ∧ exit_status (main (H:=stableSlice) envDiskFull emptyFS) = 0)
       ∨ ∃ n, write_fail envDiskFull (outputFile envDiskFull) = Some n
              ∧ "// License"
                = take_bytes n (Execute (paramsOf (H:=stableSlice) envDiskFull))
              ∧ exit_status (main (H:=stableSlice) envDiskFull emptyFS) = 1
              ∧ logged (main (H:=stableSlice) envDiskFull emptyFS)
                = Some ErrExecute).
Proof.
  apply (output_all_or_nothing (H:=stableSlice) envDiskFull emptyFS).
  by vm_compute.
Defined.

(** ** The names of the scratch copies *)

Lemma append_nil_r (s : string) : s +:+ EmptyString = s.
Proof. induction s as [|c s IH]; [done|]. by rewrite append_cons, IH. Qed.

Lemma rev_string_rev_string a b s :
  rev_string a (rev_string b s) = rev_string (s +:+ a) b.
Proof.
  revert b. induction s as [|c s IH]; intros b; [done|].
  cbn [rev_string]. rewrite IH. by rewrite append_cons.
Qed.

Lemma path_elems_plain cur name :
  all_of (λ c, negb (Ascii.eqb c slash)) name = true →
  path_elems cur name = [rev_string EmptyString (rev_string cur name)].
Proof.
  revert cur. induction name as [|c name IH]; intros cur Hall; [done|].
  simpl in Hall. apply andb_true_iff in Hall as [Hc Hall].
  cbn [path_elems rev_string]. apply negb_true_iff in Hc. rewrite Hc.
  by apply IH.
Qed.

Lemma path_elems_last cur x name :
  all_of (λ c, negb (Ascii.eqb c slash)) name = true →
  ∃ front, path_elems cur (x +:+ String slash name) = front ++ [name].
Proof.
  intros Hname. revert cur. induction x as [|c x IH]; intros cur.
  - rewrite append_nil_l. cbn [path_elems]. rewrite Ascii.eqb_refl.
    exists [rev_string EmptyString cur]. simpl.
    rewrite (path_elems_plain EmptyString name Hname).
    by rewrite rev_string_rev_string, append_nil_r.
  - rewrite append_cons. cbn [path_elems].
    destruct (Ascii.eqb c slash).
    + destruct (IH EmptyString) as [front ->].
      by exists (rev_string EmptyString cur :: front).
    + apply IH.
Qed.

(** [filepath.Base] of anything that ends with a separator and a path
    element is that element. *)
Lemma Base_last x name :
  plain_name name → Base (x +:+ String slash name) = name.
Proof.
  intros [Hne Hname]. unfold Base.
  destruct (path_elems_last EmptyString x name Hname) as [front Hfront].
  assert (is_empty (x +:+ String slash name) = false) as ->.
  { destruct x; [done|]. by rewrite append_cons. }
  rewrite Hfront, rev_app_distr. cbn [rev app]. rewrite filter_cons.
  destruct name as [|c name]; [done|]. by rewrite decide_True.
Qed.

Lemma scratch_base env dirpath name :
  plain_name name →
  Base (baseURL +:+ linuxVersion env +:+ dirpath +:+ String slash name) = name.
Proof.
  intros Hname. rewrite <- !append_assoc. by apply Base_last.
Qed.

(** X15.  The scratch copy of a file is named after the last element of
    its URL, so the six downloads use four names: the ARM header and the
    generic header are both kept as [unistd.h], and [syscall_64.tbl] is
    fetched twice under one name.  A builder reads the copy it has just
    written: after [buildAARCH64] succeeds, [unistd.h] in the scratch
    directory holds the generic header, whatever was there before. *)
Theorem scratch_names `{SortSlice} env dir :
  map (λ file : parseFunc * string,
         Join dir (Base (baseURL +:+ linuxVersion env +:+ file.2)))
      source_files
  = map (Join dir)
        [ "syscall.tbl"; "unistd.h"; "unistd.h"; "syscall_32.tbl";
          "syscall_64.tbl"; "syscall_64.tbl" ]
  ∧ (∀ fs arch fs',
       buildAARCH64 env dir fs = (Ok arch, fs') →
       os_Open (Join dir "unistd.h") fs'
       = Some (fetched env "/include/uapi/asm-generic/unistd.h")).
Proof.
  assert (Base (baseURL +:+ linuxVersion env
                  +:+ "/include/uapi/asm-generic/unistd.h") = "unistd.h")
    as Hgeneric by by apply (scratch_base env "/include/uapi/asm-generic").
  split.
  - assert (Base (baseURL +:+ linuxVersion env +:+ "/arch/arm/tools/syscall.tbl")
            = "syscall.tbl") as Harm
      by by apply (scratch_base env "/arch/arm/tools").
    assert (Base (baseURL +:+ linuxVersion env
                    +:+ "/arch/arm/include/uapi/asm/unistd.h") = "unistd.h")
      as Hheader by by apply (scratch_base env "/arch/arm/include/uapi/asm").
    assert (Base (baseURL +:+ linuxVersion env
                    +:+ "/arch/x86/entry/syscalls/syscall_32.tbl")
            = "syscall_32.tbl") as H32
      by by apply (scratch_base env "/arch/x86/entry/syscalls").
    assert (Base (baseURL +:+ linuxVersion env
                    +:+ "/arch/x86/entry/syscalls/syscall_64.tbl")
            = "syscall_64.tbl") as H64
      by by apply (scratch_base env "/arch/x86/entry/syscalls").
    unfold source_files. cbn [map snd].
    by rewrite Harm, Hheader, Hgeneric, H32, !H64.
  - intros fs arch fs'. unfold buildAARCH64.
    destruct (readSyscalls env _ dir parseAARCH64 fs) as [[l [e|]] fs1] eqn:Hread;
      [done|].
    intros [= _ <-]. revert Hread. unfold readSyscalls, fetched.
    destruct (downloadFile env _ dir fs) as [[name|e] fs2] eqn:Hdl; [|done].
    apply downloadFile_ok in Hdl as (resp & -> & _ & -> & _ & _ & ->).
    rewrite os_Open_put_file. intros [= _ <-].
    rewrite Hgeneric. apply os_Open_put_file.
Qed.

Lemma scratch_names_witness :
  os_Open (Join "/tmp/scratch" "unistd.h")
    (buildAARCH64 (H:=stableSlice) fixtureEnv "/tmp/scratch"
       (buildARM (H:=stableSlice) fixtureEnv "/tmp/scratch" emptyFS).2).2
  = Some (fetched fixtureEnv "/include/uapi/asm-generic/unistd.h").
Proof.
  destruct (scratch_names (H:=stableSlice) fixtureEnv "/tmp/scratch")
    as [_ Hheader].
  apply (Hheader (buildARM (H:=stableSlice) fixtureEnv "/tmp/scratch" emptyFS).2
                 {| ArchName := "AARCH64";
                      Syscalls := [ {| Num := 0; Name := "io_setup" |};
                                    {| Num := 25; Name := "fcntl" |};
                                    {| Num := 84; Name := "sync_file_range" |} ] |}).
  vm_compute. reflexivity.
Defined.

(** ** The order of the lines *)

(** X16.  When the numbers parsed for an architecture are all different,
    its final list depends on the lines and not on their order: two fetched
    texts whose parsed pairs are rearrangements of each other give the same
    list, for every [sort.Slice] that meets the contract. *)
Theorem final_list_order_independent `{SortSlice} b p env1 env2 dir1 dir2
    fs1 fs2 arch1 arch2 fs1' fs2' :
  (b, p) ∈ architectures →
  b env1 dir1 fs1 = (Ok arch1, fs1') →
  b env2 dir2 fs2 = (Ok arch2, fs2') →
  p env1 ≡ₚ p env2 →
  unique_numbers (p env1) →
  Syscalls arch1 = Syscalls arch2.
Proof.
  intros Hin Hrun1 Hrun2 Hperm Huniq.
  rewrite (architectures_ok _ _ _ _ _ _ _ Hin Hrun1),
    (architectures_ok _ _ _ _ _ _ _ Hin Hrun2).
  apply ascending_unique.
  - by apply (unique_numbers_perm _ (p env1) (sort_Slice_perm _ _)).
  - apply sort_Slice_ascending.
  - apply sort_Slice_ascending.
  - by rewrite !sort_Slice_perm.
Qed.

Lemma final_list_order_independent_witness :
  [ {| Num := 0; Name := "restart_syscall" |}; {| Num := 1; Name := "exit" |} ]
  = Syscalls {| ArchName := "386";
                Syscalls := [ {| Num := 0; Name := "restart_syscall" |};
                              {| Num := 1; Name := "exit" |} ] |}.
Proof.
  apply (final_list_order_independent (H:=reversingSlice)
           (@build386 reversingSlice) parsed386 fixtureEnv envSwapped
           "/tmp/scratch" "/tmp/scratch" emptyFS emptyFS
           {| ArchName := "386";
              Syscalls := [ {| Num := 0; Name := "restart_syscall" |};
                            {| Num := 1; Name := "exit" |} ] |} _
           (build386 (H:=reversingSlice) fixtureEnv "/tmp/scratch" emptyFS).2
           (build386 (H:=reversingSlice) envSwapped "/tmp/scratch" emptyFS).2).
  - unfold architectures. do 2 right. left.
  - vm_compute. reflexivity.
  - vm_compute. reflexivity.
  - assert (parsed386 fixtureEnv
            = [ {| Num := 1; Name := "exit" |};
                {| Num := 0; Name := "restart_syscall" |} ]) as ->
      by by vm_compute.
    assert (parsed386 envSwapped
            = [ {| Num := 0; Name := "restart_syscall" |};
                {| Num := 1; Name := "exit" |} ]) as -> by by vm_compute.
    apply Permutation_swap.
  - apply (bool_decide_unpack _). by vm_compute.
Defined.
